(** * Gomoku move-selection engine: playouts, classifier and evaluator

    A shallow embedding of [gtp_connection.py] (the heuristic classifier
    [check_block_win], the playouts [random_simulation] and
    [rules_simulation], the evaluation loops of [genmove_cmd]) and of
    [Gomoku3.py] (the scored-evaluation player).

    The board class and [GoBoardUtil] are external collaborators of these
    two files; they enter the development as a record of operations (the
    Board Oracle of the specification), and one concrete board is given
    further down to evaluate the code on explicit positions.

    Python objects are references: a store maps object identities to board
    values, [copy] allocates, [play_move_gomoku] writes in place.  The
    module-level list [STACK] and the random generator are part of the
    same world. *)

From Stdlib Require Import ZArith QArith List Lia Bool Ascii String Arith.
From Stdlib Require Import Lqa DecimalString Sorted.
From stdpp Require Import gmap strings.
Import ListNotations.
Open Scope string_scope.
Open Scope nat_scope.

(** ** Colours and moves *)

(** [board_util]'s colour codes EMPTY = 0, BLACK = 1, WHITE = 2, BORDER = 3. *)
Inductive color : Type := EMPTY | BLACK | WHITE | BORDER.

Definition color_eqb (a b : color) : bool :=
  match a, b with
  | EMPTY, EMPTY | BLACK, BLACK | WHITE, WHITE | BORDER, BORDER => true
  | _, _ => false
  end.

Definition color_code (c : color) : nat :=
  match c with EMPTY => 0 | BLACK => 1 | WHITE => 2 | BORDER => 3 end.

Definition is_player (c : color) : Prop := c = BLACK \/ c = WHITE.

(** A move is a point of the one-dimensional board array, or PASS. *)
Inductive move : Type := PASS | Pt (p : nat).

Definition move_eqb (a b : move) : bool :=
  match a, b with
  | PASS, PASS => true
  | Pt p, Pt q => Nat.eqb p q
  | _, _ => false
  end.

Definition is_PASS (m : move) : bool := move_eqb m PASS.

(** ** The Board Oracle

    What the two source files call on a board and on [GoBoardUtil]. The
    result of [check_game_end_gomoku] is the pair (game_end, winner);
    [winner] is Python's [None] when nobody has won. The boolean returned
    by [play_move_gomoku] is discarded at every call site embedded here, so
    only the written board is kept. *)
Record oracle (Board Rng : Type) : Type := {
  current_player : Board -> color;
  check_game_end_gomoku : Board -> bool * option color;
  get_empty_points : Board -> list move;
  generate_legal_moves_gomoku : Board -> list move;
  generate_random_move_gomoku : Board -> Rng -> move * Rng;
  play_move_gomoku : Board -> move -> color -> Board;
  check_block_win_gomoku : Board -> color -> Z;
  check_open_four_gomoku : Board -> color -> Z;
  check_block_open_four_gomoku : Board -> color -> Z;
  opponent : color -> color
}.

Arguments current_player {Board Rng} _ _.
Arguments check_game_end_gomoku {Board Rng} _ _.
Arguments get_empty_points {Board Rng} _ _.
Arguments generate_legal_moves_gomoku {Board Rng} _ _.
Arguments generate_random_move_gomoku {Board Rng} _ _ _.
Arguments play_move_gomoku {Board Rng} _ _ _ _.
Arguments check_block_win_gomoku {Board Rng} _ _ _.
Arguments check_open_four_gomoku {Board Rng} _ _ _.
Arguments check_block_open_four_gomoku {Board Rng} _ _ _.
Arguments opponent {Board Rng} _ _.

(** The number of empty cells, the measure of the playouts. *)
Definition empties {Board Rng} (O : oracle Board Rng) (b : Board) : nat :=
  List.length (get_empty_points O b).

(** What the playouts rely on: a random move and a legal move are empty
    points, and a stone of a player on an empty point fills it. *)
Record oracle_laws {Board Rng} (O : oracle Board Rng) : Prop := {
  random_move_empty : forall b g m g',
    generate_random_move_gomoku O b g = (m, g') ->
    m <> PASS -> In m (get_empty_points O b);
  legal_move_empty : forall b m,
    In m (generate_legal_moves_gomoku O b) ->
    m <> PASS -> In m (get_empty_points O b);
  play_fills : forall b m c,
    In m (get_empty_points O b) -> is_player c ->
    empties O (play_move_gomoku O b m c) < empties O b;
  opponent_player : forall c, is_player c -> is_player (opponent O c)
}.

(** ** Exceptions, results and the world monad *)

Inductive exn : Type :=
| IndexError
| ValueError
| AssertionError
| ZeroDivisionError
| TypeError
| AttributeError (name : string)
| NameError (name : string).

(** A run ends with a value, with a Python exception, or it exhausts the
    recursion budget it was given. *)
Inductive result (W A : Type) : Type :=
| Ok (a : A) (w : W)
| Raise (e : exn) (w : W)
| OutOfFuel.

Arguments Ok {W A} _ _.
Arguments Raise {W A} _ _.
Arguments OutOfFuel {W A}.

Definition M (W A : Type) : Type := W -> result W A.

Definition ret {W A} (a : A) : M W A := fun w => Ok a w.

Definition bind {W A B} (c : M W A) (k : A -> M W B) : M W B :=
  fun w =>
    match c w with
    | Ok a w' => k a w'
    | Raise e w' => Raise e w'
    | OutOfFuel => OutOfFuel
    end.

Definition raise {W A} (e : exn) : M W A := fun w => Raise e w.

Notation "x <- c ;; k" := (bind c (fun x => k))
  (at level 100, c at next level, right associativity).
Notation "c ;;; k" := (bind c (fun _ => k))
  (at level 100, right associativity).

(** ** Python numbers used as win ratios

    [wins] is an integer count or a sum of scores 0, 0.5 and 1, and the
    ratio is [wins/10]. These values are multiples of 1/20 between 0 and 1;
    they are compared as rationals. *)
Definition Qgtb (a b : Q) : bool := negb (Qle_bool a b).

Definition ratio_of (wins : Q) : Q := wins / 10.

(** ** The world of [gtp_connection.py] *)

Definition ref : Type := nat.

Inductive policy : Type := policy_random | policy_rule_based.

Section Engine.

Context {Board Rng : Type}.
Variable O : oracle Board Rng.

Record world : Type := World {
  heap : ref -> Board;
  next : ref;
  STACK : list ref;
  rng : Rng
}.

Definition upd (h : ref -> Board) (l : ref) (b : Board) : ref -> Board :=
  fun x => if Nat.eqb x l then b else h x.

(** [board.copy()]: a new object holding the same board value. *)
Definition copy (board : ref) : M world ref :=
  fun w => Ok (next w)
    {| heap := upd (heap w) (next w) (heap w board);
       next := S (next w);
       STACK := STACK w;
       rng := rng w |}.

(** A method that reads the board object and answers. *)
Definition query {A} (f : Board -> A) (board : ref) : M world A :=
  fun w => Ok (f (heap w board)) w.

(** [board.play_move_gomoku(move, color)]: writes the object in place. *)
Definition play (board : ref) (mv : move) (c : color) : M world unit :=
  fun w => Ok tt
    {| heap := upd (heap w) board (play_move_gomoku O (heap w board) mv c);
       next := next w;
       STACK := STACK w;
       rng := rng w |}.

Definition STACK_append (l : ref) : M world unit :=
  fun w => Ok tt
    {| heap := heap w; next := next w; STACK := l :: STACK w; rng := rng w |}.

(** [STACK.pop()]; the top of the stack is the head of the list. *)
Definition STACK_pop : M world ref :=
  fun w =>
    match STACK w with
    | [] => Raise IndexError w
    | l :: st =>
        Ok l {| heap := heap w; next := next w; STACK := st; rng := rng w |}
    end.

(** [GoBoardUtil.generate_random_move_gomoku(board)] *)
Definition random_move (board : ref) : M world move :=
  fun w =>
    let (mv, g) := generate_random_move_gomoku O (heap w board) (rng w) in
    Ok mv {| heap := heap w; next := next w; STACK := STACK w; rng := g |}.

(** [save] and [undo] of the source. *)
Definition save (board : ref) : M world unit :=
  l <- copy board ;; STACK_append l.

Definition undo : M world ref := STACK_pop.

(** ** The heuristic classifier [check_block_win] *)

Record scan_state : Type := Scan {
  win_moves : list move;
  block_win_moves : list move;
  open_four_moves : list move;
  block_open_four_moves : list move;
  found_win : bool;
  found_block_win : bool;
  found_open_four : bool;
  found_block_open_four : bool
}.

Definition scan_init : scan_state :=
  Scan [] [] [] [] false false false false.

(** The four tests of one candidate, on the board after the move. The
    lists grow at the end ([append]). *)
Definition step_win (bc : Board) (mv : move) (s : scan_state) : scan_state :=
  if fst (check_game_end_gomoku O bc)
  then Scan (win_moves s ++ [mv]) (block_win_moves s) (open_four_moves s)
            (block_open_four_moves s) true (found_block_win s)
            (found_open_four s) (found_block_open_four s)
  else s.

Definition step_block_win (bc : Board) (c : color) (base : Z) (mv : move)
    (s : scan_state) : scan_state :=
  if negb (found_win s)
  then if (check_block_win_gomoku O bc c <? base)%Z
       then Scan (win_moves s) (block_win_moves s ++ [mv]) (open_four_moves s)
                 (block_open_four_moves s) (found_win s) true
                 (found_open_four s) (found_block_open_four s)
       else s
  else s.

Definition step_open_four (bc : Board) (c : color) (base : Z) (mv : move)
    (s : scan_state) : scan_state :=
  if negb (found_win s) && negb (found_block_win s)
  then if (base <? check_open_four_gomoku O bc c)%Z
       then Scan (win_moves s) (block_win_moves s) (open_four_moves s ++ [mv])
                 (block_open_four_moves s) (found_win s) (found_block_win s)
                 true (found_block_open_four s)
       else s
  else s.

Definition step_block_open_four (bc : Board) (c : color) (base : Z)
    (mv : move) (s : scan_state) : scan_state :=
  if negb (found_win s) && negb (found_block_win s)
     && negb (found_open_four s)
  then if (check_block_open_four_gomoku O bc c <? base)%Z
       then Scan (win_moves s) (block_win_moves s) (open_four_moves s)
                 (block_open_four_moves s ++ [mv]) (found_win s)
                 (found_block_win s) (found_open_four s) true
       else s
  else s.

Definition step_candidate (bc : Board) (c : color) (b1 b2 b3 : Z)
    (mv : move) (s : scan_state) : scan_state :=
  step_block_open_four bc c b3 mv
    (step_open_four bc c b2 mv
      (step_block_win bc c b1 mv
        (step_win bc mv s))).

(** The [for move in moves] loop. The variable [board] is rebound at the
    end of every round to the snapshot popped from [STACK]. *)
Fixpoint check_block_win_loop (c : color) (b1 b2 b3 : Z) (moves : list move)
    (board : ref) (s : scan_state) : M world (ref * scan_state) :=
  match moves with
  | [] => ret (board, s)
  | mv :: rest =>
      board_copy <- copy board ;;
      save board ;;;
      play board_copy mv c ;;;
      s' <- query (fun bc => step_candidate bc c b1 b2 b3 mv s) board_copy ;;
      board' <- undo ;;
      check_block_win_loop c b1 b2 b3 rest board' s'
  end.

(** The category and the list that are returned after the scan. *)
Definition check_block_win_result (moves : list move) (s : scan_state)
    : string * list move :=
  if found_win s then ("Win", win_moves s)
  else if found_block_win s then ("BlockWin", block_win_moves s)
  else if found_open_four s then ("OpenFour", open_four_moves s)
  else if found_block_open_four s
       then ("BlockOpenFour", block_open_four_moves s)
  else ("Random", moves).

(** The scan of [check_block_win], up to the final choice of a list: the
    legal moves and the state of the four lists and flags. *)
Definition check_block_win_scan (board : ref) (color0 : option color)
    : M world (list move * scan_state) :=
  c <- match color0 with
       | Some c => ret c
       | None => query (current_player O) board
       end ;;
  original_board <- copy board ;;
  moves <- query (generate_legal_moves_gomoku O) board ;;
  b1 <- query (fun b => check_block_win_gomoku O b c) original_board ;;
  b2 <- query (fun b => check_open_four_gomoku O b c) original_board ;;
  b3 <- query (fun b => check_block_open_four_gomoku O b c) original_board ;;
  r <- check_block_win_loop c b1 b2 b3 moves board scan_init ;;
  ret (moves, snd r).

Definition check_block_win (board : ref) (color0 : option color)
    : M world (string * list move) :=
  r <- check_block_win_scan board color0 ;;
  ret (check_block_win_result (fst r) (snd r)).

(** ** The playouts *)

(** [winner == original_color], where [winner] may be [None]. *)
Definition winner_is (winner : option color) (c : color) : bool :=
  match winner with
  | Some w => color_eqb w c
  | None => false
  end.

(** [random_simulation]. When the game has ended and the winner is not
    [original_color], control falls through to the move generation. *)
Fixpoint random_simulation (fuel : nat) (board : ref)
    (original_color c : color) : M world bool :=
  match fuel with
  | 0 => fun _ => OutOfFuel
  | S fuel' =>
      ge <- query (check_game_end_gomoku O) board ;;
      if fst ge && winner_is (snd ge) original_color then ret true
      else
        mv <- random_move board ;;
        if is_PASS mv then ret false
        else
          snapshot <- copy board ;;
          STACK_append snapshot ;;;
          play board mv c ;;;
          board2 <- copy board ;;
          status <- random_simulation fuel' board2 original_color
                      (opponent O c) ;;
          _ <- STACK_pop ;;
          ret status
  end.

(** [moves.pop()] on a Python list: the last element. *)
Definition list_pop {W A} (l : list A) : M W A :=
  match List.rev l with
  | [] => raise IndexError
  | x :: _ => ret x
  end.

(** [rules_simulation]; the scores 1, 0 and 0.5 as rationals. *)
Fixpoint rules_simulation (fuel : nat) (board : ref)
    (original_color c : color) : M world Q :=
  match fuel with
  | 0 => fun _ => OutOfFuel
  | S fuel' =>
      ge <- query (check_game_end_gomoku O) board ;;
      if fst ge
      then if winner_is (snd ge) original_color then ret 1%Q else ret 0%Q
      else
        dup <- copy board ;;
        r <- check_block_win dup (Some c) ;;
        let moves := snd r in
        if Nat.eqb (List.length moves) 0 then ret (1 # 2)%Q
        else
          mv <- list_pop moves ;;
          if is_PASS mv then ret (1 # 2)%Q
          else
            play board mv c ;;;
            rules_simulation fuel' board original_color (opponent O c)
  end.

(** ** The evaluation loops of [genmove_cmd] *)

(** [for i in range(0,10)] of the random policy: every playout gets
    [self.board.copy()], and [color] both as [original_color] and as the
    colour to move. The candidate [move] of the enclosing loop does not
    occur in the body. *)
Fixpoint random_playouts (fuel n : nat) (self_board : ref) (c : color)
    (wins : Z) : M world Z :=
  match n with
  | 0 => ret wins
  | S n' =>
      dup <- copy self_board ;;
      r <- random_simulation fuel dup c c ;;
      random_playouts fuel n' self_board c (if r then (wins + 1)%Z else wins)
  end.

(** The body of [for move in moves] up to the comparison: the value of
    [wins] for the candidate. *)
Definition random_candidate (fuel : nat) (self_board : ref) (c : color)
    (mv : move) : M world Q :=
  wins <- random_playouts fuel 10 self_board c 0%Z ;;
  ret (inject_Z wins).

(** [best_move == None] on the first round. *)
Definition default_best (best_move : option move) (mv : move) : option move :=
  match best_move with
  | None => Some mv
  | Some _ => best_move
  end.

Fixpoint genmove_random_loop (fuel : nat) (self_board : ref) (c : color)
    (moves : list move) (best_move : option move) (best_ratio : Q)
    : M world (option move * Q) :=
  match moves with
  | [] => ret (best_move, best_ratio)
  | mv :: rest =>
      let best_move := default_best best_move mv in
      wins <- random_candidate fuel self_board c mv ;;
      if Qgtb (ratio_of wins) best_ratio
      then genmove_random_loop fuel self_board c rest (Some mv) (ratio_of wins)
      else genmove_random_loop fuel self_board c rest best_move best_ratio
  end.

(** [for i in range(0,10)] of the rule-based policy: every playout gets
    [temp_board.copy()] and starts with the opponent to move. *)
Fixpoint rules_playouts (fuel n : nat) (temp_board : ref) (c : color)
    (wins : Q) : M world Q :=
  match n with
  | 0 => ret wins
  | S n' =>
      dup <- copy temp_board ;;
      outcome <- rules_simulation fuel dup c (opponent O c) ;;
      rules_playouts fuel n' temp_board c (wins + outcome)%Q
  end.

Definition rules_candidate (fuel : nat) (self_board : ref) (c : color)
    (mv : move) : M world Q :=
  temp_board <- copy self_board ;;
  play temp_board mv c ;;;
  rules_playouts fuel 10 temp_board c 0%Q.

Fixpoint genmove_rules_loop (fuel : nat) (self_board : ref) (c : color)
    (moves : list move) (best_move : option move) (best_ratio : Q)
    : M world (option move * Q) :=
  match moves with
  | [] => ret (best_move, best_ratio)
  | mv :: rest =>
      temp_board <- copy self_board ;;
      play temp_board mv c ;;;
      let best_move := default_best best_move mv in
      wins <- rules_playouts fuel 10 temp_board c 0%Q ;;
      if Qgtb (ratio_of wins) best_ratio
      then genmove_rules_loop fuel self_board c rest (Some mv) (ratio_of wins)
      else genmove_rules_loop fuel self_board c rest best_move best_ratio
  end.

(** [genmove_cmd] up to the value of [best_move] after the loops: either
    the early answer on a finished game, or the selected move. What
    follows in the source only formats and commits that move. *)
Inductive genmove_outcome : Type :=
| respond (answer : string)
| selected (best_move : option move).

Definition genmove_cmd (fuel : nat) (POLICY : policy) (self_board : ref)
    (c : color) : M world genmove_outcome :=
  ge <- query (check_game_end_gomoku O) self_board ;;
  if fst ge
  then ret (respond (if winner_is (snd ge) c then "pass" else "resign"))
  else
    moves <- query (generate_legal_moves_gomoku O) self_board ;;
    r <- match POLICY with
         | policy_random =>
             genmove_random_loop fuel self_board c moves None 0%Q
         | policy_rule_based =>
             genmove_rules_loop fuel self_board c moves None 0%Q
         end ;;
    ret (selected (fst r)).

(** The candidate evaluation the specification describes for the random
    policy: the playouts start from a duplicate on which the candidate has
    been played for the acting colour. Stated here to be compared with
    [random_candidate]. *)
Fixpoint spec_random_playouts (fuel n : nat) (self_board : ref) (c : color)
    (mv : move) (wins : Z) : M world Z :=
  match n with
  | 0 => ret wins
  | S n' =>
      dup <- copy self_board ;;
      play dup mv c ;;;
      r <- random_simulation fuel dup c c ;;
      spec_random_playouts fuel n' self_board c mv
        (if r then (wins + 1)%Z else wins)
  end.

Definition spec_random_candidate (fuel : nat) (self_board : ref) (c : color)
    (mv : move) : M world Q :=
  wins <- spec_random_playouts fuel 10 self_board c mv 0%Z ;;
  ret (inject_Z wins).

End Engine.

Arguments world : clear implicits.
Arguments World {Board Rng} _ _ _ _.

(** ** A concrete board

    Modelled from the spec: the Board Oracle ([simple_board.py] and
    [board_util.py] are not among the sources). The grid is the
    one-dimensional array that [point_to_coord] of [gtp_connection.py]
    decodes: point = row * (size + 1) + col with rows and columns counted
    from 1, and BORDER cells around the grid. A game is over when a colour
    has five in a row; the tactical counts follow the glossary. The random
    generator is the list of the draws still to come. *)
Module GoBoard.

Record board : Type := Board {
  size : nat;
  cells : list color;
  to_play : color
}.

Definition NS (n : nat) : nat := n + 1.

Definition on_grid (n p : nat) : bool :=
  let r := p / NS n in
  let c := p mod NS n in
  (1 <=? r) && (r <=? n) && (1 <=? c) && (c <=? n).

Definition empty_cells (n : nat) : list color :=
  List.map (fun p => if on_grid n p then EMPTY else BORDER)
           (seq 0 (n * n + 3 * (n + 1))).

Definition empty_board (n : nat) : board := Board n (empty_cells n) BLACK.

Definition cell (cs : list color) (p : nat) : color :=
  match cs !! p with
  | Some c => c
  | None => BORDER
  end.

Definition opponent (c : color) : color :=
  match c with
  | BLACK => WHITE
  | WHITE => BLACK
  | EMPTY => BORDER
  | BORDER => EMPTY
  end.

(** Stones of colour [c] met from [p] in steps of [+d], at most [k]. *)
Fixpoint run_up (k : nat) (cs : list color) (p d : nat) (c : color) : nat :=
  match k with
  | 0 => 0
  | S k' =>
      if color_eqb (cell cs (p + d)) c
      then S (run_up k' cs (p + d) d c)
      else 0
  end.

(** The same in steps of [-d]. *)
Fixpoint run_down (k : nat) (cs : list color) (p d : nat) (c : color) : nat :=
  match k with
  | 0 => 0
  | S k' =>
      if (d <=? p) && color_eqb (cell cs (p - d)) c
      then S (run_down k' cs (p - d) d c)
      else 0
  end.

Definition directions (n : nat) : list nat := [1; NS n; NS n + 1; NS n - 1].

Definition five_at (n : nat) (cs : list color) (c : color) (p : nat) : bool :=
  color_eqb (cell cs p) c &&
  existsb (fun d => 5 <=? 1 + run_up 4 cs p d c + run_down 4 cs p d c)
          (directions n).

Definition has_five (b : board) (c : color) : bool :=
  existsb (five_at (size b) (cells b) c) (seq 0 (List.length (cells b))).

(** White is looked at first. *)
Definition check_game_end_gomoku (b : board) : bool * option color :=
  if has_five b WHITE then (true, Some WHITE)
  else if has_five b BLACK then (true, Some BLACK)
  else (false, None).

Fixpoint empty_points_from (i : nat) (cs : list color) : list move :=
  match cs with
  | [] => []
  | c :: cs' =>
      if color_eqb c EMPTY
      then Pt i :: empty_points_from (S i) cs'
      else empty_points_from (S i) cs'
  end.

Definition get_empty_points (b : board) : list move :=
  empty_points_from 0 (cells b).

Definition generate_legal_moves_gomoku (b : board) : list move :=
  get_empty_points b.

Definition play_move_gomoku (b : board) (mv : move) (c : color) : board :=
  match mv with
  | PASS => b
  | Pt p =>
      if color_eqb (cell (cells b) p) EMPTY
      then Board (size b) (<[p := c]> (cells b)) (opponent c)
      else b
  end.

Definition generate_random_move_gomoku (b : board) (g : list nat)
    : move * list nat :=
  match get_empty_points b with
  | [] => (PASS, g)
  | e :: es => (nth (hd 0 g mod List.length (e :: es)) (e :: es) PASS, tl g)
  end.

Definition count_moves (f : move -> bool) (ms : list move) : Z :=
  Z.of_nat (List.length (List.filter f ms)).

(** A stone of [c] on [mv] completes five for [c]. *)
Definition completes_five (b : board) (c : color) (mv : move) : bool :=
  has_five (play_move_gomoku b mv c) c.

(** Empty points on which the opponent of [c] would win at once. *)
Definition check_block_win_gomoku (b : board) (c : color) : Z :=
  count_moves (completes_five b (opponent c)) (get_empty_points b).

(** Windows empty, four stones of [c], empty. *)
Definition open_four_at (cs : list color) (c : color) (p d : nat) : bool :=
  color_eqb (cell cs p) EMPTY && (run_up 4 cs p d c =? 4) &&
  color_eqb (cell cs (p + 5 * d)) EMPTY.

Definition check_open_four_gomoku (b : board) (c : color) : Z :=
  Z.of_nat (List.length (List.filter
    (fun pd => open_four_at (cells b) c (fst pd) (snd pd))
    (list_prod (seq 0 (List.length (cells b))) (directions (size b))))).

(** Empty points on which the opponent of [c] would gain an open four. *)
Definition check_block_open_four_gomoku (b : board) (c : color) : Z :=
  count_moves
    (fun mv => (check_open_four_gomoku b (opponent c) <?
                check_open_four_gomoku (play_move_gomoku b mv (opponent c))
                                       (opponent c))%Z)
    (get_empty_points b).

Definition the_oracle : oracle board (list nat) :=
  Build_oracle board (list nat)
    to_play check_game_end_gomoku get_empty_points
    generate_legal_moves_gomoku generate_random_move_gomoku play_move_gomoku
    check_block_win_gomoku check_open_four_gomoku
    check_block_open_four_gomoku opponent.

(** Boards written row by row, row 1 first: X black, O white, anything
    else empty. *)
Definition stone_of (a : Ascii.ascii) : color :=
  if Ascii.eqb a "X"%char then BLACK
  else if Ascii.eqb a "O"%char then WHITE
  else EMPTY.

Fixpoint place_row (p : nat) (row : list Ascii.ascii) (cs : list color)
    : list color :=
  match row with
  | [] => cs
  | a :: row' => place_row (S p) row' (<[p := stone_of a]> cs)
  end.

Fixpoint place_rows (n r : nat) (rows : list string) (cs : list color)
    : list color :=
  match rows with
  | [] => cs
  | row :: rows' =>
      place_rows n (S r) rows'
        (place_row (r * NS n + 1) (list_ascii_of_string row) cs)
  end.

Definition board_of_rows (n : nat) (rows : list string) (c : color) : board :=
  Board n (place_rows n 1 rows (empty_cells n)) c.

(** The world in which object 0 is the board [b]. *)
Definition world_of (b : board) (g : list nat) : world board (list nat) :=
  World (fun _ => b) 1 [] g.

End GoBoard.

(** ** The scored-evaluation player of [Gomoku3.py]

    The position that [genmove] and [simulate] work on is one shared
    object, [self.board]; it is the world of the monad here. Its class is
    not among the sources: its methods are a record of operations.
    Attribute look-up on [self] and the look-up of the module's global
    names are modelled as finite maps, so that a name that is not bound
    raises as in Python. *)
Module Gomoku3.

(** What an attribute of the player can hold. *)
Inductive attr (State : Type) : Type :=
| AInt (z : Z)
| ABoard
| ACallable (truth : State -> bool)
| AMethod.

Arguments AInt {State} _.
Arguments ABoard {State}.
Arguments ACallable {State} _.
Arguments AMethod {State}.

Record state_ops (State : Type) : Type := {
  play : State -> move -> State;
  moveNumber : State -> Z;
  state_simulate : State -> color * State;
  resetToMoveNumber : State -> Z -> State;
  undoMove : State -> State;
  toPlay : State -> color;
  generate_legal_moves_gomoku : State -> list move
}.

Arguments play {State} _ _ _.
Arguments moveNumber {State} _ _.
Arguments state_simulate {State} _ _.
Arguments resetToMoveNumber {State} _ _ _.
Arguments undoMove {State} _ _.
Arguments toPlay {State} _ _.
Arguments generate_legal_moves_gomoku {State} _ _.

(** The move count of the position under [play] and [undoMove]. *)
Record state_laws {State} (P : state_ops State) : Prop := {
  count_nonneg : forall s, (0 <= moveNumber P s)%Z;
  play_count : forall s mv,
    In mv (generate_legal_moves_gomoku P s) ->
    moveNumber P (play P s mv) = (moveNumber P s + 1)%Z;
  undo_count : forall s,
    (0 < moveNumber P s)%Z ->
    moveNumber P (undoMove P s) = (moveNumber P s - 1)%Z
}.

Section Player.

Context {State : Type}.
Variable P : state_ops State.

(** [self]: the attributes found on the instance or on its class. *)
Variable self : gmap string (attr State).

(** The global names of the module [Gomoku3]. *)
Variable globals : gmap string color.

Definition getattr (name : string) : M State (attr State) :=
  match self !! name with
  | Some a => ret a
  | None => raise (AttributeError name)
  end.

Definition getattr_int (name : string) : M State Z :=
  a <- getattr name ;;
  match a with
  | AInt z => ret z
  | _ => raise TypeError
  end.

Definition getattr_board (name : string) : M State unit :=
  a <- getattr name ;;
  match a with
  | ABoard => ret tt
  | _ => raise TypeError
  end.

Definition global (name : string) : M State color :=
  match globals !! name with
  | Some c => ret c
  | None => raise (NameError name)
  end.

Definition assert (b : bool) : M State unit :=
  if b then ret tt else raise AssertionError.

(** [stats[i]] and [stats[i] += 1] on a Python list. *)
Definition index (stats : list Z) (c : color) : M State Z :=
  match stats !! color_code c with
  | Some v => ret v
  | None => raise IndexError
  end.

Definition increment (stats : list Z) (c : color) : M State (list Z) :=
  v <- index stats c ;;
  ret (<[color_code c := (v + 1)%Z]> stats).

Definition sum (stats : list Z) : Z := fold_right Z.add 0%Z stats.

(** [for _ in range(self.numSimulations)] *)
Fixpoint simulate_loop (n : nat) (moveNr : Z) (stats : list Z)
    : M State (list Z) :=
  match n with
  | 0 => ret stats
  | S n' =>
      winner <- (fun st => let (w, st') := state_simulate P st in Ok w st') ;;
      stats' <- increment stats winner ;;
      (fun st => Ok tt (resetToMoveNumber P st moveNr)) ;;;
      simulate_loop n' moveNr stats'
  end.

Definition simulate (mv : move) : M State Q :=
  let stats := [0; 0; 0]%Z in
  (fun st => Ok tt (play P st mv)) ;;;
  moveNr <- (fun st => Ok (moveNumber P st) st) ;;
  n <- getattr_int "numSimulations" ;;
  stats <- simulate_loop (Z.to_nat n) moveNr stats ;;
  n1 <- getattr_int "numSimulations" ;;
  assert (sum stats =? n1)%Z ;;;
  now <- (fun st => Ok (moveNumber P st) st) ;;
  assert (moveNr =? now)%Z ;;;
  (fun st => Ok tt (undoMove P st)) ;;;
  black <- global "BLACK" ;;
  s_black <- index stats black ;;
  empty <- global "EMPTY" ;;
  s_empty <- index stats empty ;;
  n2 <- getattr_int "numSimulations" ;;
  if (n2 =? 0)%Z then raise ZeroDivisionError
  else
    let eval := ((inject_Z s_black + (1 # 2) * inject_Z s_empty)
                 / inject_Z n2)%Q in
    to_play <- (fun st => Ok (toPlay P st) st) ;;
    white <- global "WHITE" ;;
    if color_eqb to_play white then ret (1 - eval)%Q else ret eval.

(** [for i in range(numMoves): score[i] = self.simulate(self.board, move)] *)
Fixpoint genmove_scores (moves : list move) : M State (list Q) :=
  match moves with
  | [] => ret []
  | mv :: rest =>
      getattr "simulate" ;;;
      getattr_board "board" ;;;
      s <- simulate mv ;;
      ss <- genmove_scores rest ;;
      ret (s :: ss)
  end.

(** [score.index(max(score))]: the first position of the greatest score. *)
Fixpoint max_score (best : Q) (score : list Q) : Q :=
  match score with
  | [] => best
  | s :: rest => max_score (if Qgtb s best then s else best) rest
  end.

Fixpoint first_index (x : Q) (score : list Q) : nat :=
  match score with
  | [] => 0
  | s :: rest => if Qeq_bool s x then 0 else S (first_index x rest)
  end.

Definition genmove : M State move :=
  a <- getattr "check_game_end_gomoku" ;;
  ended <- match a with
           | ACallable truth => (fun st => Ok (truth st) st)
           | _ => raise TypeError
           end ;;
  assert (negb ended) ;;;
  getattr_board "board" ;;;
  moves <- (fun st => Ok (generate_legal_moves_gomoku P st) st) ;;
  score <- genmove_scores moves ;;
  match score with
  | [] => raise ValueError
  | s :: rest =>
      let bestIndex := first_index (max_score s rest) score in
      match moves !! bestIndex with
      | None => raise IndexError
      | Some best =>
          getattr_board "board" ;;;
          legal <- (fun st => Ok (generate_legal_moves_gomoku P st) st) ;;
          assert (existsb (move_eqb best) legal) ;;;
          ret best
      end
  end.

End Player.

(** The instance as the class statement makes it: [numSims] and the three
    methods. *)
Definition instance (State : Type) : gmap string (attr State) :=
  <["numSims" := AInt 10]>
    (<["name" := AMethod]>
      (<["genmove" := AMethod]>
        (<["simulate" := AMethod]> ∅))).

(** The names the module binds: its three imports are classes, no colour
    constant is imported. *)
Definition module_globals : gmap string color := ∅.

(** A position kept as the list of the moves played, latest first, on
    cells numbered from 0.

    Modelled from the spec: the shared position of the scored-evaluation
    variant, with its move count, rewind and single-move undo. A
    simulation plays the free cells in increasing order; Black wins when
    the move that opened the game is on an even cell, White otherwise. *)
Definition history : Type := list move.

Definition cells_count : nat := 4.

Definition free (h : history) : list move :=
  List.filter (fun mv => negb (existsb (move_eqb mv) h))
              (List.map Pt (seq 0 cells_count)).

Definition history_ops : state_ops history := {|
  play := fun h mv => mv :: h;
  moveNumber := fun h => Z.of_nat (List.length h);
  state_simulate := fun h =>
    (match List.rev h with
     | Pt p :: _ => if Nat.even p then BLACK else WHITE
     | _ => EMPTY
     end, (List.rev (free h) ++ h)%list);
  resetToMoveNumber := fun h n =>
    skipn (List.length h - Z.to_nat n) h;
  undoMove := fun h => List.tl h;
  toPlay := fun h => if Nat.even (List.length h) then BLACK else WHITE;
  generate_legal_moves_gomoku := free
|}.

(** The instance with the attributes a caller would have to add for
    [genmove] and [simulate] to run: [board], a [check_game_end_gomoku]
    that answers whether no cell is free, and [numSimulations]. *)
Definition board_instance : gmap string (attr history) :=
  <["board" := ABoard]>
    (<["check_game_end_gomoku" :=
         ACallable (fun h => Nat.eqb (List.length (free h)) 0)]>
      (instance history)).

Definition patched_instance : gmap string (attr history) :=
  <["numSimulations" := AInt 10]> board_instance.

(** Globals in which the three colour constants are bound. *)
Definition patched_globals : gmap string color :=
  <["BLACK" := BLACK]> (<["WHITE" := WHITE]> (<["EMPTY" := EMPTY]> ∅)).

End Gomoku3.

(** ** Pure readings of the classifier and of the selection

    The scan applied to a board value, and the selection applied to the
    list of the candidates' [wins]; the lemmas below relate the stateful
    code to them. *)
Section Readings.

Context {Board Rng : Type}.
Variable O : oracle Board Rng.

Fixpoint scan_moves (b : Board) (c : color) (b1 b2 b3 : Z)
    (moves : list move) (s : scan_state) : scan_state :=
  match moves with
  | [] => s
  | mv :: rest =>
      scan_moves b c b1 b2 b3 rest
        (step_candidate O (play_move_gomoku O b mv c) c b1 b2 b3 mv s)
  end.

Definition scan_board (b : Board) (c : color) (moves : list move)
    : scan_state :=
  scan_moves b c (check_block_win_gomoku O b c) (check_open_four_gomoku O b c)
    (check_block_open_four_gomoku O b c) moves scan_init.

Definition classify (b : Board) (c : color) : string * list move :=
  check_block_win_result (generate_legal_moves_gomoku O b)
    (scan_board b c (generate_legal_moves_gomoku O b)).

Definition color_or_default (b : Board) (color0 : option color) : color :=
  match color0 with
  | Some c => c
  | None => current_player O b
  end.

(** A move wins for the scan when the game has ended on the board after
    it. *)
Definition ends_game (b : Board) (c : color) (mv : move) : bool :=
  fst (check_game_end_gomoku O (play_move_gomoku O b mv c)).

(** What a run may do to the store: allocate, and leave the objects that
    existed and [STACK] as they were; [frame_but l] lets object [l] change. *)
Definition frame_but (l : ref) (w w' : world Board Rng) : Prop :=
  next w <= next w' /\ STACK w' = STACK w /\
  forall x, x < next w -> x <> l -> heap w' x = heap w x.

Definition frame (w w' : world Board Rng) : Prop :=
  next w <= next w' /\ STACK w' = STACK w /\
  forall x, x < next w -> heap w' x = heap w x.

(** The world in which the recursive call of [random_simulation] runs:
    a snapshot was allocated and pushed, the move was played on [board],
    and the played board was copied. *)
Definition after_move (w : world Board Rng) (board : ref) (mv : move)
    (c : color) (g : Rng) : world Board Rng :=
  let b := play_move_gomoku O (heap w board) mv c in
  World (upd (upd (upd (heap w) (next w) (heap w board)) board b)
             (S (next w)) b)
        (S (S (next w))) (next w :: STACK w) g.

(** The world after [board.play_move_gomoku(move, color)]. *)
Definition played (w : world Board Rng) (board : ref) (mv : move) (c : color)
    : world Board Rng :=
  World (upd (heap w) board (play_move_gomoku O (heap w board) mv c))
        (next w) (STACK w) (rng w).

(** The candidates' [wins], in order, each computed in the world the
    previous one left. *)
Fixpoint eval_candidates (candidate : move -> M (world Board Rng) Q)
    (moves : list move) : M (world Board Rng) (list Q) :=
  match moves with
  | [] => ret []
  | mv :: rest =>
      wins <- candidate mv ;;
      more <- eval_candidates candidate rest ;;
      ret (wins :: more)
  end.

Fixpoint select_best (moves : list move) (wins : list Q)
    (best_move : option move) (best_ratio : Q) : option move * Q :=
  match moves, wins with
  | mv :: rest, w :: more =>
      if Qgtb (ratio_of w) best_ratio
      then select_best rest more (Some mv) (ratio_of w)
      else select_best rest more (default_best best_move mv) best_ratio
  | _, _ => (best_move, best_ratio)
  end.

(** Candidate [i] is the first one of greatest ratio. *)
Definition first_greatest (wins : list Q) (i : nat) : Prop :=
  exists wi, wins !! i = Some wi /\
    forall j wj, wins !! j = Some wj ->
      (ratio_of wj <= ratio_of wi)%Q /\
      (j < i -> (ratio_of wj < ratio_of wi)%Q).

End Readings.

(** ** Positions used to run the code

    Boards of size 5, Black to move. *)
Module Positions.

(** Two points are empty: 11 completes the first row for Black, 35
    completes nothing. *)
Definition two_left : GoBoard.board :=
  GoBoard.board_of_rows 5
    ["XXXX."; "OOXOO"; "OXXOX"; "XOOXO"; "OXXO."] BLACK.

(** White has the first row; point 35 is empty. *)
Definition white_won : GoBoard.board :=
  GoBoard.board_of_rows 5
    ["OOOOO"; "XXOXX"; "XOXXO"; "OXXOX"; "XOOX."] BLACK.

(** Point 11 completes the first row for Black; point 17 would complete
    the second row for White. *)
Definition win_and_block : GoBoard.board :=
  GoBoard.board_of_rows 5
    ["XXXX."; "OOOO."; "XOXOX"; "OXOXO"; "XOXOX"] BLACK.

(** Points 7 and 35, two corners, are empty; no stone on either completes
    five for Black, and White needs both. *)
Definition open_corners : GoBoard.board :=
  GoBoard.board_of_rows 5
    [".XOXX"; "OOXOO"; "XXOXX"; "OOXOO"; "XXOX."] BLACK.

End Positions.

(** ** The rule-guided playout on a board value

    What [rules_simulation] computes, read on the board alone: the game
    check, the classification for the colour to move, the last move of the
    returned list, and the same again for the opponent on the board after
    that move. *)
Section RulesReading.

Context {Board Rng : Type}.
Variable O : oracle Board Rng.

Fixpoint rules_value (fuel : nat) (b : Board) (original_color c : color)
    : option Q :=
  match fuel with
  | 0 => None
  | S fuel' =>
      let ge := check_game_end_gomoku O b in
      if fst ge
      then Some (if winner_is (snd ge) original_color then 1%Q else 0%Q)
      else
        match List.rev (snd (classify O b c)) with
        | [] => Some (1 # 2)%Q
        | mv :: _ =>
            if is_PASS mv then Some (1 # 2)%Q
            else rules_value fuel' (play_move_gomoku O b mv c)
                   original_color (opponent O c)
        end
  end.

(** The board the object given to [rules_simulation] holds when the
    playout returns: every move of the playout is played on that object,
    one after the other. *)
Fixpoint rules_board (fuel : nat) (b : Board) (c : color) : Board :=
  match fuel with
  | 0 => b
  | S fuel' =>
      if fst (check_game_end_gomoku O b) then b
      else
        match List.rev (snd (classify O b c)) with
        | [] => b
        | mv :: _ =>
            if is_PASS mv then b
            else rules_board fuel' (play_move_gomoku O b mv c) (opponent O c)
        end
  end.

(** The tests on which [rules_simulation] returns without playing, for
    the colour to move. *)
Definition playout_over (b : Board) (c : color) : bool :=
  fst (check_game_end_gomoku O b)
  || match List.rev (snd (classify O b c)) with
     | [] => true
     | mv :: _ => is_PASS mv
     end.

(** The board the object given to [random_simulation] holds when it
    returns: the first move drawn is played on it, the rest of the playout
    runs on copies. *)
Definition random_board (b : Board) (g : Rng) (original_color c : color)
    : Board :=
  let ge := check_game_end_gomoku O b in
  if fst ge && winner_is (snd ge) original_color then b
  else
    let mv := fst (generate_random_move_gomoku O b g) in
    if is_PASS mv then b else play_move_gomoku O b mv c.

End RulesReading.

(** A flag of the scan is set only together with an entry of its list. *)
Definition flags_backed (s : scan_state) : Prop :=
  (found_win s = true -> win_moves s <> []) /\
  (found_block_win s = true -> block_win_moves s <> []) /\
  (found_open_four s = true -> open_four_moves s <> []) /\
  (found_block_open_four s = true -> block_open_four_moves s <> []).

(** ** The protocol helpers of [gtp_connection.py]

    Command strings are ASCII. The builtin [int] is a parameter: it
    answers [None] where Python raises ValueError. [MAXSIZE] is imported
    by the source from [board_util]. *)
Module Protocol.

(** What [point_to_coord] and [move_to_coord] return: PASS or a pair
    (row, col). *)
Inductive coord : Type :=
| CPASS
| CPair (row col : Z).

Definition column_letters : string := "ABCDEFGHJKLMNOPQRSTUVWXYZ".

Definition ord (c : ascii) : Z := Z.of_nat (nat_of_ascii c).

(** [s[i]] on a string: a negative index counts from the end. *)
Definition str_index {W} (s : string) (i : Z) : M W ascii :=
  let n := Z.of_nat (String.length s) in
  let j := if (i <? 0)%Z then (i + n)%Z else i in
  if (j <? 0)%Z then raise IndexError
  else
    match String.get (Z.to_nat j) s with
    | Some c => ret c
    | None => raise IndexError
    end.

(** [s[1:]] *)
Definition from_1 (s : string) : string :=
  match s with
  | EmptyString => EmptyString
  | String _ rest => rest
  end.

(** [str(n)] of an integer. *)
Definition str (z : Z) : string := NilZero.string_of_int (Z.to_int z).

(** [s.lower()] *)
Definition lower_char (c : ascii) : ascii :=
  let n := nat_of_ascii c in
  if (65 <=? n) && (n <=? 90) then ascii_of_nat (n + 32) else c.

Fixpoint lower (s : string) : string :=
  match s with
  | EmptyString => EmptyString
  | String c rest => String (lower_char c) (lower rest)
  end.

(** [list.sort()] on strings. *)
Fixpoint sort_insert (x : string) (l : list string) : list string :=
  match l with
  | [] => [x]
  | y :: rest => if String.leb x y then x :: l else y :: sort_insert x rest
  end.

Definition sort (l : list string) : list string :=
  fold_right sort_insert [] l.

Section Helpers.

Context {W : Type}.
Variable MAXSIZE : Z.
Variable int : string -> option Z.

Definition point_to_coord (point : move) (boardsize : Z) : M W coord :=
  match point with
  | PASS => ret CPASS
  | Pt p =>
      let NS := (boardsize + 1)%Z in
      if (NS =? 0)%Z then raise ZeroDivisionError
      else ret (CPair (Z.of_nat p / NS) (Z.of_nat p mod NS))
  end.

Definition format_point (move : coord) : M W string :=
  match move with
  | CPASS => ret "pass"
  | CPair row col =>
      if negb ((0 <=? row)%Z && (row <? MAXSIZE)%Z)
         || negb ((0 <=? col)%Z && (col <? MAXSIZE)%Z)
      then raise ValueError
      else
        c <- str_index column_letters (col - 1) ;;
        ret (String c (str row))
  end.

(** The body of the [try] statement of [move_to_coord]. *)
Definition move_to_coord_try (s : string) : M W (Z * Z) :=
  col_c <- str_index s 0 ;;
  if negb ((ord "a" <=? ord col_c)%Z && (ord col_c <=? ord "z")%Z)
     || (ord col_c =? ord "i")%Z
  then raise ValueError
  else
    let col := (ord col_c - ord "a")%Z in
    let col := if (ord col_c <? ord "i")%Z then (col + 1)%Z else col in
    match int (from_1 s) with
    | None => raise ValueError
    | Some row =>
        if (row <? 1)%Z then raise ValueError else ret (row, col)
    end.

Definition move_to_coord (point_str : string) (board_size : Z)
    : M W coord :=
  if negb ((2 <=? board_size)%Z && (board_size <=? MAXSIZE)%Z)
  then raise ValueError
  else
    let s := lower point_str in
    if String.eqb s "pass" then ret CPASS
    else
      fun w =>
        match move_to_coord_try s w with
        | Ok (row, col) w' =>
            if negb ((col <=? board_size)%Z && (row <=? board_size)%Z)
            then Raise ValueError w'
            else Ok (CPair row col) w'
        | Raise IndexError w' => Raise ValueError w'
        | Raise ValueError w' => Raise ValueError w'
        | Raise e w' => Raise e w'
        | OutOfFuel => OutOfFuel
        end.

End Helpers.

(** [policy_cmd]: the world is the module global [POLICY], the value is
    the response. *)
Definition POLICY_initial : string := "random".

Definition policy_cmd (args : list string) : M string string :=
  match args with
  | [] => raise IndexError
  | a :: _ =>
      if negb (String.eqb a "random") && negb (String.eqb a "rule_based")
      then ret "unknown policy"
      else fun _ => Ok ("policy set to " ++ a) a
  end.

(** The values [POLICY] takes in a session: the initial one, and what a
    call of [policy_cmd] leaves. *)
Inductive POLICY_reachable : string -> Prop :=
| reachable_initial : POLICY_reachable POLICY_initial
| reachable_cmd args p r p' :
    POLICY_reachable p -> policy_cmd args p = Ok r p' ->
    POLICY_reachable p'.

(** The string of [POLICY] as the test of [genmove_cmd] reads it. *)
Definition policy_of_string (s : string) : option policy :=
  if String.eqb s "random" then Some policy_random
  else if String.eqb s "rule_based" then Some policy_rule_based
  else None.

Section PolicyMoves.

Context {Board Rng : Type}.
Variable O : oracle Board Rng.
Variable MAXSIZE : Z.
Variable size : Board -> Z.

(** [for move in moves: ... move_strings.append(move_as_string)] *)
Fixpoint format_moves (board : ref) (moves : list move)
    : M (world Board Rng) (list string) :=
  match moves with
  | [] => ret []
  | mv :: rest =>
      sz <- query size board ;;
      move_coord <- point_to_coord mv sz ;;
      move_as_string <- format_point MAXSIZE move_coord ;;
      move_strings <- format_moves board rest ;;
      ret (move_as_string :: move_strings)
  end.

(** The value is the response the command sends. *)
Definition policy_moves (self_board : ref) : M (world Board Rng) string :=
  r <- check_block_win O self_board None ;;
  let movetype := fst r in
  move_strings <- format_moves self_board (snd r) ;;
  let returnstring :=
    fold_left (fun acc move_string => acc ++ (" " ++ move_string))
      (sort move_strings) movetype in
  ret (if String.eqb returnstring "Random" then "" else returnstring).

End PolicyMoves.

End Protocol.

(** * Properties *)

Lemma bind_Ok {W A B} (c : M W A) (k : A -> M W B) w v w' :
  bind c k w = Ok v w' ->
  exists a w1, c w = Ok a w1 /\ k a w1 = Ok v w'.
Proof.
  unfold bind. destruct (c w) as [a w1 | |]; try discriminate. eauto.
Qed.

Lemma Qgtb_true a b : Qgtb a b = true -> (b < a)%Q.
Proof.
  unfold Qgtb. intros H. apply Qnot_le_lt. intros Hle.
  apply Qle_bool_iff in Hle. rewrite Hle in H. discriminate.
Qed.

Lemma Qgtb_false a b : Qgtb a b = false -> (a <= b)%Q.
Proof.
  unfold Qgtb. intros H. apply Qle_bool_iff.
  destruct (Qle_bool a b); [reflexivity | discriminate].
Qed.

(** The selection keeps the best so far unless a later ratio is strictly
    greater; what it returns is the first candidate of greatest ratio. *)
Lemma select_best_invariant moves :
  forall wins m0 r0 bm r,
    List.length moves = List.length wins ->
    select_best moves wins (Some m0) r0 = (bm, r) ->
    (bm = Some m0 /\ r = r0 /\
     forall j wj, wins !! j = Some wj -> (ratio_of wj <= r0)%Q)
    \/
    (exists i best wi,
       bm = Some best /\ moves !! i = Some best /\ wins !! i = Some wi /\
       r = ratio_of wi /\ (r0 < ratio_of wi)%Q /\
       forall j wj, wins !! j = Some wj ->
         (ratio_of wj <= ratio_of wi)%Q /\
         (j < i -> (ratio_of wj < ratio_of wi)%Q)).
Proof.
  induction moves as [| mv rest IH]; intros wins m0 r0 bm r Hlen Hsel.
  - destruct wins; [| discriminate]. cbn in Hsel. injection Hsel as <- <-.
    left. repeat split. intros j wj Hj. destruct j; discriminate.
  - destruct wins as [| w0 more]; [discriminate |].
    cbn in Hlen. injection Hlen as Hlen. cbn [select_best] in Hsel.
    destruct (Qgtb (ratio_of w0) r0) eqn:Hgt.
    + apply Qgtb_true in Hgt.
      destruct (IH more mv (ratio_of w0) bm r Hlen Hsel)
        as [(-> & -> & Hall) | (i & best & wi & -> & Hm & Hw & -> & Hlt & Hall)].
      * right. exists 0, mv, w0. repeat split; auto.
        -- destruct j; cbn in H.
           ++ injection H as <-. apply Qle_refl.
           ++ eapply Hall; eauto.
        -- intros Hj. lia.
      * right. exists (S i), best, wi. repeat split; auto.
        -- eapply Qlt_trans; eauto.
        -- destruct j; cbn in H.
           ++ injection H as <-. now apply Qlt_le_weak.
           ++ eapply Hall; eauto.
        -- intros Hj. destruct j; cbn in H.
           ++ injection H as <-. assumption.
           ++ eapply Hall; eauto. lia.
    + apply Qgtb_false in Hgt. cbn [default_best] in Hsel.
      destruct (IH more m0 r0 bm r Hlen Hsel)
        as [(-> & -> & Hall) | (i & best & wi & -> & Hm & Hw & -> & Hlt & Hall)].
      * left. repeat split. intros j wj Hj. destruct j; cbn in Hj.
        -- injection Hj as <-. assumption.
        -- eapply Hall; eauto.
      * right. exists (S i), best, wi. repeat split; auto.
        -- destruct j; cbn in H.
           ++ injection H as <-. apply Qlt_le_weak.
              eapply Qle_lt_trans; eauto.
           ++ eapply Hall; eauto.
        -- intros Hj. destruct j; cbn in H.
           ++ injection H as <-. eapply Qle_lt_trans; eauto.
           ++ eapply Hall; eauto. lia.
Qed.

Lemma select_best_first_greatest moves wins bm r :
  List.length moves = List.length wins ->
  Forall (fun w => 0 <= ratio_of w)%Q wins ->
  moves <> [] ->
  select_best moves wins None 0%Q = (bm, r) ->
  exists i best,
    bm = Some best /\ moves !! i = Some best /\ first_greatest wins i.
Proof.
  intros Hlen Hpos Hne Hsel.
  destruct moves as [| mv rest]; [contradiction |].
  destruct wins as [| w0 more]; [discriminate |].
  cbn in Hlen. injection Hlen as Hlen.
  inversion Hpos as [| ? ? Hw0 Hmore]; subst.
  cbn [select_best default_best] in Hsel.
  destruct (Qgtb (ratio_of w0) 0) eqn:Hgt.
  - apply Qgtb_true in Hgt.
    destruct (select_best_invariant rest more mv (ratio_of w0) bm r Hlen Hsel)
      as [(-> & -> & Hall) | (i & best & wi & -> & Hm & Hw & -> & Hlt & Hall)].
    + exists 0, mv. repeat split; auto. exists w0. split; [reflexivity |].
      intros j wj Hj. split.
      * destruct j; cbn in Hj.
        -- injection Hj as <-. apply Qle_refl.
        -- eapply Hall; eauto.
      * lia.
    + exists (S i), best. repeat split; auto. exists wi. split; [exact Hw |].
      intros j wj Hj. destruct j; cbn in Hj.
      * injection Hj as <-. split; [now apply Qlt_le_weak | auto].
      * split; [eapply Hall; eauto |]. intros Hlt'. eapply Hall; eauto. lia.
  - apply Qgtb_false in Hgt.
    destruct (select_best_invariant rest more mv 0%Q bm r Hlen Hsel)
      as [(-> & -> & Hall) | (i & best & wi & -> & Hm & Hw & -> & Hlt & Hall)].
    + exists 0, mv. repeat split; auto. exists w0. split; [reflexivity |].
      intros j wj Hj. split.
      * destruct j; cbn in Hj.
        -- injection Hj as <-. apply Qle_refl.
        -- eapply Qle_trans; [eapply Hall; eauto | assumption].
      * lia.
    + exists (S i), best. repeat split; auto. exists wi. split; [exact Hw |].
      intros j wj Hj. destruct j; cbn in Hj.
      * injection Hj as <-.
        split; [apply Qlt_le_weak |]; intros; eapply Qle_lt_trans; eauto.
      * split; [eapply Hall; eauto |]. intros Hlt'. eapply Hall; eauto. lia.
Qed.

(** ** The engine of [gtp_connection.py], for any board oracle *)
Section EngineTheory.

Context {Board Rng : Type}.
Variable O : oracle Board Rng.

Lemma upd_eq (h : ref -> Board) l b : upd h l b l = b.
Proof. unfold upd. now rewrite Nat.eqb_refl. Qed.

Lemma upd_ne (h : ref -> Board) l b x : x <> l -> upd h l b x = h x.
Proof.
  intros Hne. unfold upd. destruct (Nat.eqb_spec x l); [contradiction | reflexivity].
Qed.

Lemma upd_lt (h : ref -> Board) l b x : x < l -> upd h l b x = h x.
Proof. intros Hlt. apply upd_ne. lia. Qed.

Lemma frame_refl (w : world Board Rng) : frame w w.
Proof. repeat split; auto. Qed.

Lemma frame_trans (w1 w2 w3 : world Board Rng) :
  frame w1 w2 -> frame w2 w3 -> frame w1 w3.
Proof.
  intros (Hn1 & Hs1 & Hh1) (Hn2 & Hs2 & Hh2). repeat split.
  - lia.
  - congruence.
  - intros x Hx. rewrite Hh2 by lia. now apply Hh1.
Qed.

(** One round of the scan leaves [board] rebound to a snapshot that holds
    the same board, and the store otherwise as it was. *)
Lemma check_block_win_loop_reads c b1 b2 b3 moves :
  forall board s (w : world Board Rng),
    board < next w ->
    exists board' w',
      check_block_win_loop O c b1 b2 b3 moves board s w
        = Ok (board', scan_moves O (heap w board) c b1 b2 b3 moves s) w' /\
      frame w w' /\ rng w' = rng w /\
      board' < next w' /\ heap w' board' = heap w board.
Proof.
  induction moves as [| mv rest IH]; intros board s w Hb.
  - exists board, w. cbn. repeat split; auto.
  - cbn [check_block_win_loop scan_moves].
    unfold bind at 1. cbn [copy].
    unfold bind at 1. unfold save, bind at 1. cbn [copy STACK_append heap next STACK rng].
    unfold bind at 1. cbn [play heap next STACK rng].
    unfold bind at 1. cbn [query heap].
    unfold bind at 1. cbn [undo STACK_pop STACK heap next rng].
    set (b := heap w board).
    set (w1 := {| heap := _; next := _; STACK := _; rng := _ |}).
    assert (Hb1 : heap w1 (S (next w)) = b).
    { subst w1. cbn. rewrite upd_ne by lia. rewrite upd_eq.
      rewrite upd_lt by lia. reflexivity. }
    rewrite upd_eq. rewrite (upd_ne _ (S (next w))) by lia. rewrite upd_eq.
    destruct (IH (S (next w)) (step_candidate O (play_move_gomoku O b mv c) c b1 b2 b3 mv s) w1)
      as (board' & w' & Hrun & Hfr & Hrng & Hlt & Hval).
    { subst w1. cbn. lia. }
    rewrite Hb1 in Hrun, Hval.
    exists board', w'. split; [exact Hrun |].
    destruct Hfr as (Hn & Hs & Hh).
    repeat split; auto.
    + subst w1. cbn in Hn. lia.
    + intros x Hx. rewrite Hh by (subst w1; cbn; lia).
      subst w1. cbn. rewrite !upd_lt by lia. reflexivity.
Qed.

Lemma check_block_win_scan_reads board color0 (w : world Board Rng) :
  board < next w ->
  exists w',
    check_block_win_scan O board color0 w
      = Ok (generate_legal_moves_gomoku O (heap w board),
            scan_board O (heap w board)
              (color_or_default O (heap w board) color0)
              (generate_legal_moves_gomoku O (heap w board))) w' /\
    frame w w' /\ rng w' = rng w.
Proof.
  intros Hb. unfold check_block_win_scan.
  set (c := color_or_default O (heap w board) color0).
  assert (Hc : forall (k : color -> M (world Board Rng) (list move * scan_state)),
             bind (match color0 with
                   | Some c0 => ret c0
                   | None => query (current_player O) board
                   end) k w = k c w).
  { intros k. subst c. destruct color0; reflexivity. }
  rewrite Hc. unfold bind at 1. cbn [copy].
  unfold bind at 1. cbn [query heap].
  unfold bind at 1. cbn [query heap]. rewrite upd_eq.
  unfold bind at 1. cbn [query heap]. rewrite upd_eq.
  unfold bind at 1. cbn [query heap]. rewrite upd_eq.
  rewrite (upd_lt _ _ _ board) by lia.
  set (w1 := {| heap := _; next := _; STACK := _; rng := _ |}).
  destruct (check_block_win_loop_reads c
              (check_block_win_gomoku O (heap w board) c)
              (check_open_four_gomoku O (heap w board) c)
              (check_block_open_four_gomoku O (heap w board) c)
              (generate_legal_moves_gomoku O (heap w board))
              board scan_init w1)
    as (board' & w' & Hrun & (Hn & Hs & Hh) & Hrng & _ & _).
  { subst w1. cbn. lia. }
  assert (Hw1 : heap w1 board = heap w board).
  { subst w1. cbn. apply upd_lt. lia. }
  rewrite Hw1 in Hrun.
  exists w'. unfold bind. rewrite Hrun. cbn. split; [reflexivity |].
  subst w1. cbn in *. repeat split; auto.
  - lia.
  - intros x Hx. rewrite Hh by lia. apply upd_lt. lia.
Qed.

Lemma check_block_win_reads board color0 (w : world Board Rng) :
  board < next w ->
  exists w',
    check_block_win O board color0 w
      = Ok (check_block_win_result
              (generate_legal_moves_gomoku O (heap w board))
              (scan_board O (heap w board)
                 (color_or_default O (heap w board) color0)
                 (generate_legal_moves_gomoku O (heap w board)))) w' /\
    frame w w' /\ rng w' = rng w.
Proof.
  intros Hb.
  destruct (check_block_win_scan_reads board color0 w Hb)
    as (w' & Hrun & Hfr & Hrng).
  exists w'. unfold check_block_win, bind. rewrite Hrun. cbn. auto.
Qed.

(** *** The scan on a board value *)

Lemma scan_moves_app b c b1 b2 b3 l1 l2 s :
  scan_moves O b c b1 b2 b3 (l1 ++ l2) s
  = scan_moves O b c b1 b2 b3 l2 (scan_moves O b c b1 b2 b3 l1 s).
Proof.
  revert s. induction l1 as [| mv l1 IH]; intros s; cbn; [reflexivity |].
  apply IH.
Qed.

(** A candidate that ends the game sets [found_win] and touches no list
    but the Win list. *)
Lemma step_candidate_win bc c b1 b2 b3 mv s :
  fst (check_game_end_gomoku O bc) = true ->
  let s' := step_candidate O bc c b1 b2 b3 mv s in
  found_win s' = true /\
  win_moves s' = (win_moves s ++ [mv])%list /\
  block_win_moves s' = block_win_moves s /\
  open_four_moves s' = open_four_moves s /\
  block_open_four_moves s' = block_open_four_moves s.
Proof.
  intros Hend. unfold step_candidate, step_block_open_four, step_open_four,
    step_block_win, step_win. rewrite Hend. cbn. auto.
Qed.

(** With [found_win] set, a candidate can only be added to the Win list. *)
Lemma step_candidate_sticky bc c b1 b2 b3 mv s :
  found_win s = true ->
  let s' := step_candidate O bc c b1 b2 b3 mv s in
  found_win s' = true /\
  block_win_moves s' = block_win_moves s /\
  open_four_moves s' = open_four_moves s /\
  block_open_four_moves s' = block_open_four_moves s.
Proof.
  intros Hw. destruct s as [wm bm om bom fw fb fo fbo]. cbn in Hw. subst fw.
  unfold step_candidate, step_block_open_four, step_open_four,
    step_block_win, step_win.
  destruct (fst (check_game_end_gomoku O bc)); cbn; auto.
Qed.

Lemma scan_moves_sticky b c b1 b2 b3 moves :
  forall s, found_win s = true ->
  let s' := scan_moves O b c b1 b2 b3 moves s in
  found_win s' = true /\
  block_win_moves s' = block_win_moves s /\
  open_four_moves s' = open_four_moves s /\
  block_open_four_moves s' = block_open_four_moves s.
Proof.
  induction moves as [| mv rest IH]; intros s Hw; cbn; [auto |].
  destruct (step_candidate_sticky (play_move_gomoku O b mv c) c b1 b2 b3 mv s Hw)
    as (H1 & H2 & H3 & H4).
  destruct (IH _ H1) as (G1 & G2 & G3 & G4).
  cbn in *. repeat split; congruence.
Qed.

(** The Win test is not gated: the Win list collects every candidate that
    ends the game. *)
Lemma step_candidate_win_moves bc c b1 b2 b3 mv s :
  let s' := step_candidate O bc c b1 b2 b3 mv s in
  win_moves s' =
    (win_moves s ++ if fst (check_game_end_gomoku O bc) then [mv] else [])%list /\
  found_win s' = found_win s || fst (check_game_end_gomoku O bc).
Proof.
  destruct s as [wm bm om bom fw fb fo fbo].
  unfold step_candidate, step_block_open_four, step_open_four,
    step_block_win, step_win.
  destruct (fst (check_game_end_gomoku O bc)); cbn.
  - split; [reflexivity | now rewrite orb_true_r].
  - rewrite app_nil_r, orb_false_r.
    destruct fw; cbn; [auto |].
    destruct (check_block_win_gomoku O bc c <? b1)%Z; cbn; [auto |].
    destruct fb; cbn; [auto |].
    destruct (b2 <? check_open_four_gomoku O bc c)%Z; cbn; [auto |].
    destruct fo; cbn; [auto |].
    destruct (check_block_open_four_gomoku O bc c <? b3)%Z; cbn; auto.
Qed.

Lemma scan_moves_win_moves b c b1 b2 b3 moves :
  forall s,
  let s' := scan_moves O b c b1 b2 b3 moves s in
  win_moves s' = (win_moves s ++ List.filter (ends_game O b c) moves)%list /\
  found_win s' = found_win s || existsb (ends_game O b c) moves.
Proof.
  induction moves as [| mv rest IH]; intros s; cbn.
  - now rewrite app_nil_r, orb_false_r.
  - destruct (IH (step_candidate O (play_move_gomoku O b mv c) c b1 b2 b3 mv s))
      as (H1 & H2).
    destruct (step_candidate_win_moves (play_move_gomoku O b mv c) c b1 b2 b3 mv s)
      as (G1 & G2).
    cbn in *. rewrite H1, H2, G1, G2. unfold ends_game.
    destruct (fst (check_game_end_gomoku O (play_move_gomoku O b mv c))); cbn.
    + rewrite <- app_assoc. cbn. now rewrite orb_true_r.
    + now rewrite app_nil_r, orb_false_r.
Qed.

(** The lists only ever receive candidates of the scan. *)
Lemma step_candidate_incl bc c b1 b2 b3 mv s x :
  let s' := step_candidate O bc c b1 b2 b3 mv s in
  (In x (win_moves s') -> In x (win_moves s) \/ x = mv) /\
  (In x (block_win_moves s') -> In x (block_win_moves s) \/ x = mv) /\
  (In x (open_four_moves s') -> In x (open_four_moves s) \/ x = mv) /\
  (In x (block_open_four_moves s') -> In x (block_open_four_moves s) \/ x = mv).
Proof.
  destruct s as [wm bm om bom fw fb fo fbo].
  unfold step_candidate, step_block_open_four, step_open_four,
    step_block_win, step_win.
  destruct (fst (check_game_end_gomoku O bc)); cbn;
    [| destruct fw; cbn;
       [| destruct (check_block_win_gomoku O bc c <? b1)%Z; cbn;
          [| destruct fb; cbn;
             [| destruct (b2 <? check_open_four_gomoku O bc c)%Z; cbn;
                [| destruct fo; cbn;
                   [| destruct (check_block_open_four_gomoku O bc c <? b3)%Z;
                      cbn]]]]]];
    repeat split; intros H; try (now left);
    apply in_app_or in H; destruct H as [H | [H | []]]; auto.
Qed.

Lemma scan_moves_incl b c b1 b2 b3 moves x :
  forall s,
  let s' := scan_moves O b c b1 b2 b3 moves s in
  (In x (win_moves s') -> In x (win_moves s) \/ In x moves) /\
  (In x (block_win_moves s') -> In x (block_win_moves s) \/ In x moves) /\
  (In x (open_four_moves s') -> In x (open_four_moves s) \/ In x moves) /\
  (In x (block_open_four_moves s') ->
     In x (block_open_four_moves s) \/ In x moves).
Proof.
  induction moves as [| mv rest IH]; intros s; cbn; [tauto |].
  destruct (IH (step_candidate O (play_move_gomoku O b mv c) c b1 b2 b3 mv s))
    as (H1 & H2 & H3 & H4).
  destruct (step_candidate_incl (play_move_gomoku O b mv c) c b1 b2 b3 mv s x)
    as (G1 & G2 & G3 & G4).
  cbn in *. repeat split; intros H.
  - destruct (H1 H) as [K | K]; [destruct (G1 K); auto | auto].
  - destruct (H2 H) as [K | K]; [destruct (G2 K); auto | auto].
  - destruct (H3 H) as [K | K]; [destruct (G3 K); auto | auto].
  - destruct (H4 H) as [K | K]; [destruct (G4 K); auto | auto].
Qed.

Lemma classify_incl b c x :
  In x (snd (classify O b c)) -> In x (generate_legal_moves_gomoku O b).
Proof.
  unfold classify, check_block_win_result, scan_board.
  set (moves := generate_legal_moves_gomoku O b).
  destruct (scan_moves_incl b c (check_block_win_gomoku O b c)
              (check_open_four_gomoku O b c)
              (check_block_open_four_gomoku O b c) moves x scan_init)
    as (H1 & H2 & H3 & H4).
  cbn in *.
  repeat match goal with
         | |- context [if ?t then _ else _] => destruct t; cbn
         end; intros H; auto.
  - destruct (H1 H) as [[] | K]; auto.
  - destruct (H2 H) as [[] | K]; auto.
  - destruct (H3 H) as [[] | K]; auto.
  - destruct (H4 H) as [[] | K]; auto.
Qed.

Lemma upd_copy (h : ref -> Board) l x : upd h l (h x) x = h x.
Proof. unfold upd. destruct (Nat.eqb x l); reflexivity. Qed.

Lemma random_simulation_step fuel board oc c (w : world Board Rng) :
  random_simulation O (S fuel) board oc c w =
  let ge := check_game_end_gomoku O (heap w board) in
  if fst ge && winner_is (snd ge) oc then Ok true w
  else
    let mg := generate_random_move_gomoku O (heap w board) (rng w) in
    if is_PASS (fst mg)
    then Ok false (World (heap w) (next w) (STACK w) (snd mg))
    else
      match random_simulation O fuel (S (next w)) oc (opponent O c)
              (after_move O w board (fst mg) c (snd mg)) with
      | Ok status w2 =>
          match STACK w2 with
          | [] => Raise IndexError w2
          | _ :: st => Ok status (World (heap w2) (next w2) st (rng w2))
          end
      | Raise e w2 => Raise e w2
      | OutOfFuel => OutOfFuel
      end.
Proof.
  cbn [random_simulation]. unfold bind at 1. cbn [query].
  cbv zeta.
  destruct (fst (check_game_end_gomoku O (heap w board)) &&
            winner_is (snd (check_game_end_gomoku O (heap w board))) oc);
    [reflexivity |].
  unfold bind at 1. unfold random_move.
  destruct (generate_random_move_gomoku O (heap w board) (rng w)) as [mv g].
  cbn [fst snd].
  destruct (is_PASS mv); [reflexivity |].
  unfold bind at 1. cbn [copy].
  unfold bind at 1. cbn [STACK_append heap next STACK rng].
  unfold bind at 1. cbn [play heap next STACK rng].
  unfold bind at 1. cbn [copy heap next STACK rng].
  unfold bind at 1. unfold after_move.
  rewrite upd_copy. rewrite upd_eq.
  destruct (random_simulation O fuel (S (next w)) oc (opponent O c) _)
    as [status w2 | e w2 |]; [| reflexivity | reflexivity].
  unfold bind. unfold STACK_pop.
  destruct (STACK w2); reflexivity.
Qed.

Lemma is_PASS_false mv : is_PASS mv = false -> mv <> PASS.
Proof. intros H ->. discriminate. Qed.

Lemma is_PASS_true mv : is_PASS mv = true -> mv = PASS.
Proof. destruct mv; [reflexivity | discriminate]. Qed.

Lemma rules_simulation_terminal fuel board oc c (w : world Board Rng) :
  fst (check_game_end_gomoku O (heap w board)) = true ->
  rules_simulation O (S fuel) board oc c w =
  Ok (if winner_is (snd (check_game_end_gomoku O (heap w board))) oc
      then 1%Q else 0%Q) w.
Proof.
  intros Hend. cbn [rules_simulation]. unfold bind at 1. cbn [query].
  rewrite Hend.
  destruct (winner_is (snd (check_game_end_gomoku O (heap w board))) oc);
    reflexivity.
Qed.

Lemma length_zero_rev {A} (l : list A) :
  Nat.eqb (List.length l) 0 = true -> List.rev l = [].
Proof. destruct l; [reflexivity | discriminate]. Qed.

Lemma rules_simulation_unfold fuel board oc c (w : world Board Rng)
    dup w1 r w2 :
  fst (check_game_end_gomoku O (heap w board)) = false ->
  copy board w = Ok dup w1 ->
  check_block_win O dup (Some c) w1 = Ok r w2 ->
  rules_simulation O (S fuel) board oc c w =
  match List.rev (snd r) with
  | [] => Ok (1 # 2)%Q w2
  | mv :: _ =>
      if is_PASS mv then Ok (1 # 2)%Q w2
      else rules_simulation O fuel board oc (opponent O c)
             (played O w2 board mv c)
  end.
Proof.
  intros Hend Hcopy Hrun. cbn [rules_simulation].
  unfold bind at 1. cbn [query]. rewrite Hend.
  unfold bind at 1. rewrite Hcopy.
  unfold bind at 1. rewrite Hrun.
  set (moves := snd r).
  destruct (Nat.eqb (List.length moves) 0) eqn:Hlen.
  - rewrite (length_zero_rev _ Hlen). reflexivity.
  - unfold list_pop.
    destruct (List.rev moves) as [| mv rest] eqn:Hrev.
    + destruct moves; [discriminate Hlen |].
      apply (f_equal (@List.length move)) in Hrev.
      rewrite length_rev in Hrev. discriminate Hrev.
    + unfold bind at 1. unfold ret at 1.
      destruct (is_PASS mv); [reflexivity |].
      unfold bind. reflexivity.
Qed.

(** The classifier is asked on a fresh duplicate, so what it returns is
    the classification of the board of [board]. *)
Lemma rules_simulation_classifies board c (w : world Board Rng) :
  exists w2,
    check_block_win O (next w) (Some c)
      (World (upd (heap w) (next w) (heap w board)) (S (next w))
             (STACK w) (rng w))
      = Ok (classify O (heap w board) c) w2 /\
    frame w w2 /\ rng w2 = rng w.
Proof.
  set (w1 := World _ _ _ _).
  destruct (check_block_win_reads (next w) (Some c) w1)
    as (w2 & Hrun & (Hn & Hs & Hh) & Hrng).
  { subst w1. cbn. lia. }
  assert (Hw1 : heap w1 (next w) = heap w board).
  { subst w1. cbn. apply upd_eq. }
  rewrite Hw1 in Hrun. cbn [color_or_default] in Hrun.
  exists w2. split; [exact Hrun |]. subst w1. cbn in *.
  split; [| assumption]. split; [lia | split; [assumption |]].
  intros x Hx. rewrite Hh by lia. apply upd_lt. lia.
Qed.

Lemma rules_simulation_step fuel board oc c (w : world Board Rng) :
  fst (check_game_end_gomoku O (heap w board)) = false ->
  exists w2,
    frame w w2 /\ rng w2 = rng w /\
    rules_simulation O (S fuel) board oc c w =
    match List.rev (snd (classify O (heap w board) c)) with
    | [] => Ok (1 # 2)%Q w2
    | mv :: _ =>
        if is_PASS mv then Ok (1 # 2)%Q w2
        else rules_simulation O fuel board oc (opponent O c)
               (played O w2 board mv c)
    end.
Proof.
  intros Hend.
  destruct (rules_simulation_classifies board c w) as (w2 & Hrun & Hfr & Hrng).
  exists w2. split; [exact Hfr |]. split; [exact Hrng |].
  eapply rules_simulation_unfold; eauto.
Qed.

Lemma rev_head_In {A} (l : list A) x rest : List.rev l = x :: rest -> In x l.
Proof.
  intros H. apply in_rev. rewrite H. now left.
Qed.

Lemma genmove_random_loop_select fuel self_board c moves :
  forall best_move best_ratio (w : world Board Rng),
    genmove_random_loop O fuel self_board c moves best_move best_ratio w =
    (wins <- eval_candidates (random_candidate O fuel self_board c) moves ;;
     ret (select_best moves wins best_move best_ratio)) w.
Proof.
  induction moves as [| mv rest IH]; intros bm br w; [reflexivity |].
  cbn [genmove_random_loop eval_candidates].
  unfold bind. cbn beta.
  destruct (random_candidate O fuel self_board c mv w) as [wins w1 | e w1 |];
    [| reflexivity | reflexivity].
  destruct (Qgtb (ratio_of wins) br) eqn:Hgt; rewrite IH; unfold bind, ret;
    destruct (eval_candidates _ rest w1); cbn; rewrite ?Hgt; reflexivity.
Qed.

Lemma genmove_rules_loop_select fuel self_board c moves :
  forall best_move best_ratio (w : world Board Rng),
    genmove_rules_loop O fuel self_board c moves best_move best_ratio w =
    (wins <- eval_candidates (rules_candidate O fuel self_board c) moves ;;
     ret (select_best moves wins best_move best_ratio)) w.
Proof.
  induction moves as [| mv rest IH]; intros bm br w; [reflexivity |].
  cbn [genmove_rules_loop eval_candidates].
  unfold rules_candidate at 1.
  unfold bind. cbn beta. cbn [copy play].
  destruct (rules_playouts O fuel 10 _ c 0%Q _) as [wins w1 | e w1 |];
    [| reflexivity | reflexivity].
  destruct (Qgtb (ratio_of wins) br) eqn:Hgt; rewrite IH; unfold bind, ret;
    destruct (eval_candidates _ rest w1); cbn; rewrite ?Hgt; reflexivity.
Qed.

Lemma eval_candidates_length candidate moves :
  forall (w : world Board Rng) wins w',
    eval_candidates candidate moves w = Ok wins w' ->
    List.length wins = List.length moves.
Proof.
  induction moves as [| mv rest IH]; intros w wins w' H; cbn in H.
  - injection H as <- _. reflexivity.
  - unfold bind in H.
    destruct (candidate mv w) as [v w1 | |]; try discriminate.
    destruct (eval_candidates candidate rest w1) as [more w2 | |] eqn:Hrest;
      try discriminate.
    injection H as <- _. cbn. f_equal. eauto.
Qed.

Lemma eval_candidates_Forall (P : Q -> Prop) candidate moves :
  (forall mv (w : world Board Rng) v w', candidate mv w = Ok v w' -> P v) ->
  forall w wins w',
    eval_candidates candidate moves w = Ok wins w' -> Forall P wins.
Proof.
  intros Hc. induction moves as [| mv rest IH]; intros w wins w' H; cbn in H.
  - injection H as <- _. constructor.
  - unfold bind in H.
    destruct (candidate mv w) as [v w1 | |] eqn:Hv; try discriminate.
    destruct (eval_candidates candidate rest w1) as [more w2 | |] eqn:Hrest;
      try discriminate.
    injection H as <- _. constructor; eauto.
Qed.

Lemma random_playouts_nonneg fuel self_board c n :
  forall wins (w : world Board Rng) v w',
    random_playouts O fuel n self_board c wins w = Ok v w' ->
    (wins <= v)%Z.
Proof.
  induction n as [| n IH]; intros wins w v w' H; cbn in H.
  - injection H as <- _. lia.
  - unfold bind in H. cbn [copy] in H.
    destruct (random_simulation O fuel _ c c _) as [r w1 | |];
      try discriminate.
    apply IH in H. destruct r; lia.
Qed.

Lemma ratio_of_nonneg (z : Z) : (0 <= z)%Z -> (0 <= ratio_of (inject_Z z))%Q.
Proof.
  intros Hz. unfold ratio_of. apply Qle_shift_div_l; [reflexivity |].
  rewrite Qmult_0_l. change 0%Q with (inject_Z 0).
  now rewrite <- Zle_Qle.
Qed.

Lemma random_candidate_nonneg fuel self_board c mv (w : world Board Rng) v w' :
  random_candidate O fuel self_board c mv w = Ok v w' ->
  (0 <= ratio_of v)%Q.
Proof.
  unfold random_candidate, bind. intros H.
  destruct (random_playouts O fuel 10 self_board c 0 w) as [z w1 | |] eqn:Hz;
    try discriminate.
  injection H as <- _. apply ratio_of_nonneg.
  eapply random_playouts_nonneg; eauto.
Qed.

(** The score of a rule-guided playout is 0, 0.5 or 1. *)
Lemma rules_simulation_score fuel :
  forall board oc c (w : world Board Rng) v w',
    rules_simulation O fuel board oc c w = Ok v w' ->
    (v = 0 \/ v = (1 # 2) \/ v = 1)%Q.
Proof.
  induction fuel as [| fuel IH]; intros board oc c w v w' H; [discriminate |].
  destruct (fst (check_game_end_gomoku O (heap w board))) eqn:Hend.
  - rewrite rules_simulation_terminal in H by assumption.
    injection H as <- _. destruct (winner_is _ oc); auto.
  - destruct (rules_simulation_step fuel board oc c w Hend)
      as (w2 & _ & _ & Hrun).
    rewrite Hrun in H. clear Hrun.
    destruct (List.rev (snd (classify O (heap w board) c))) as [| mv rest].
    + injection H as <- _. auto.
    + destruct (is_PASS mv).
      * injection H as <- _. auto.
      * eauto.
Qed.

Lemma rules_playouts_nonneg fuel temp_board c n :
  forall wins (w : world Board Rng) v w',
    rules_playouts O fuel n temp_board c wins w = Ok v w' ->
    (wins <= v)%Q.
Proof.
  induction n as [| n IH]; intros wins w v w' H; cbn in H.
  - injection H as <- _. apply Qle_refl.
  - unfold bind in H. cbn [copy] in H.
    destruct (rules_simulation O fuel _ c _ _) as [r w1 | |] eqn:Hr;
      try discriminate.
    apply IH in H. apply rules_simulation_score in Hr.
    eapply Qle_trans; [| exact H].
    rewrite <- (Qplus_0_r wins) at 1. apply Qplus_le_r.
    destruct Hr as [-> | [-> | ->]]; discriminate.
Qed.

Lemma rules_candidate_nonneg fuel self_board c mv (w : world Board Rng) v w' :
  rules_candidate O fuel self_board c mv w = Ok v w' ->
  (0 <= ratio_of v)%Q.
Proof.
  unfold rules_candidate, bind. cbn [copy play]. intros H.
  apply rules_playouts_nonneg in H.
  unfold ratio_of. apply Qle_shift_div_l; [reflexivity |].
  now rewrite Qmult_0_l.
Qed.

Lemma frame_frame_but l (w w' : world Board Rng) : frame w w' -> frame_but l w w'.
Proof. intros (Hn & Hs & Hh). repeat split; auto. Qed.

Lemma random_simulation_frame fuel :
  forall board oc c (w : world Board Rng) v w',
    board < next w ->
    random_simulation O fuel board oc c w = Ok v w' ->
    frame_but board w w'.
Proof.
  induction fuel as [| fuel IH]; intros board oc c w v w' Hb H; [discriminate |].
  rewrite random_simulation_step in H. cbv zeta in H.
  destruct (fst (check_game_end_gomoku O (heap w board)) &&
            winner_is (snd (check_game_end_gomoku O (heap w board))) oc).
  { injection H as _ <-. repeat split; auto. }
  destruct (generate_random_move_gomoku O (heap w board) (rng w)) as [mv g].
  cbn [fst snd] in H.
  destruct (is_PASS mv).
  { injection H as _ <-. repeat split; auto. }
  destruct (random_simulation O fuel (S (next w)) oc (opponent O c)
              (after_move O w board mv c g)) as [st w2 | |] eqn:Hrec;
    try discriminate.
  apply IH in Hrec; [| cbn; lia].
  destruct Hrec as (Hn & Hs & Hh). cbn in Hn, Hs.
  rewrite Hs in H. injection H as _ <-.
  split; [cbn; lia | split; [reflexivity |]].
  intros x Hx Hne. cbn. rewrite Hh by (cbn; lia). cbn.
  rewrite upd_lt by lia. rewrite upd_ne by assumption.
  rewrite upd_lt by lia. reflexivity.
Qed.

Lemma rules_simulation_frame fuel :
  forall board oc c (w : world Board Rng) v w',
    board < next w ->
    rules_simulation O fuel board oc c w = Ok v w' ->
    frame_but board w w' /\ rng w' = rng w.
Proof.
  induction fuel as [| fuel IH]; intros board oc c w v w' Hb H; [discriminate |].
  destruct (fst (check_game_end_gomoku O (heap w board))) eqn:Hend.
  { rewrite rules_simulation_terminal in H by assumption.
    injection H as _ <-. repeat split; auto. }
  destruct (rules_simulation_step fuel board oc c w Hend)
    as (w2 & Hfr & Hrng & Hrun).
  rewrite Hrun in H. clear Hrun.
  destruct (List.rev (snd (classify O (heap w board) c))) as [| mv rest].
  { injection H as _ <-. split; [now apply frame_frame_but | assumption]. }
  destruct (is_PASS mv).
  { injection H as _ <-. split; [now apply frame_frame_but | assumption]. }
  destruct Hfr as (Hn & Hs & Hh).
  apply IH in H; [| cbn; lia].
  destruct H as ((Hn' & Hs' & Hh') & Hrng'). cbn in *.
  split; [split; [lia | split; [congruence |]] | congruence].
  intros x Hx Hne. rewrite Hh' by (auto; lia).
  rewrite upd_ne by assumption. now apply Hh.
Qed.

Lemma random_playouts_frame fuel self_board c n :
  forall wins (w : world Board Rng) v w',
    random_playouts O fuel n self_board c wins w = Ok v w' -> frame w w'.
Proof.
  induction n as [| n IH]; intros wins w v w' H; cbn in H.
  - injection H as _ <-. apply frame_refl.
  - unfold bind in H. cbn [copy] in H.
    destruct (random_simulation O fuel _ c c _) as [r w1 | |] eqn:Hr;
      try discriminate.
    apply random_simulation_frame in Hr; [| cbn; lia].
    apply IH in H. destruct Hr as (Hn & Hs & Hh).
    eapply frame_trans; [| exact H]. cbn in *.
    split; [lia | split; [assumption |]].
    intros x Hx. rewrite Hh by lia. apply upd_lt. lia.
Qed.

Lemma rules_playouts_frame fuel temp_board c n :
  forall wins (w : world Board Rng) v w',
    rules_playouts O fuel n temp_board c wins w = Ok v w' -> frame w w'.
Proof.
  induction n as [| n IH]; intros wins w v w' H; cbn in H.
  - injection H as _ <-. apply frame_refl.
  - unfold bind in H. cbn [copy] in H.
    destruct (rules_simulation O fuel _ c _ _) as [r w1 | |] eqn:Hr;
      try discriminate.
    apply rules_simulation_frame in Hr; [| cbn; lia].
    apply IH in H. destruct Hr as ((Hn & Hs & Hh) & _).
    eapply frame_trans; [| exact H]. cbn in *.
    split; [lia | split; [assumption |]].
    intros x Hx. rewrite Hh by lia. apply upd_lt. lia.
Qed.

Lemma random_candidate_frame fuel self_board c mv (w : world Board Rng) v w' :
  random_candidate O fuel self_board c mv w = Ok v w' -> frame w w'.
Proof.
  unfold random_candidate, bind. intros H.
  destruct (random_playouts O fuel 10 self_board c 0 w) as [z w1 | |] eqn:Hz;
    try discriminate.
  injection H as _ <-. eapply random_playouts_frame; eauto.
Qed.

Lemma rules_candidate_frame fuel self_board c mv (w : world Board Rng) v w' :
  rules_candidate O fuel self_board c mv w = Ok v w' -> frame w w'.
Proof.
  unfold rules_candidate, bind. cbn [copy play]. intros H.
  apply rules_playouts_frame in H. destruct H as (Hn & Hs & Hh). cbn in *.
  split; [lia | split; [assumption |]].
  intros x Hx. rewrite Hh by lia. rewrite upd_lt by lia. apply upd_lt. lia.
Qed.

Lemma eval_candidates_frame candidate moves :
  (forall mv (w : world Board Rng) v w',
     candidate mv w = Ok v w' -> frame w w') ->
  forall w wins w',
    eval_candidates candidate moves w = Ok wins w' -> frame w w'.
Proof.
  intros Hc. induction moves as [| mv rest IH]; intros w wins w' H; cbn in H.
  - injection H as _ <-. apply frame_refl.
  - unfold bind in H.
    destruct (candidate mv w) as [v w1 | |] eqn:Hv; try discriminate.
    destruct (eval_candidates candidate rest w1) as [more w2 | |] eqn:Hrest;
      try discriminate.
    injection H as _ <-. eapply frame_trans; eauto.
Qed.

(** Claim C3 (sticky flag of the scan). Let the legal moves of the board
    be [l1 ++ A :: l2], and let candidate [A] end the game when played for
    [c], so that the scan records it as a win. Then the scan of
    [check_block_win] ends with [found_win] set and returns category Win;
    its Block-Win, Open-Four and Block-Open-Four lists are what they were
    after [l1], so no candidate visited after [A] was tested for them; in
    particular a candidate [B] that occurs only after [A] is in none of the
    three lists, whatever its own block-win count. *)
Theorem check_block_win_sticky_flag (w : world Board Rng) board c l1 A l2 B :
  board < next w ->
  generate_legal_moves_gomoku O (heap w board) = (l1 ++ A :: l2)%list ->
  ends_game O (heap w board) c A = true ->
  In B l2 -> ~ In B l1 ->
  exists s w',
    check_block_win_scan O board (Some c) w = Ok ((l1 ++ A :: l2)%list, s) w' /\
    check_block_win O board (Some c) w = Ok ("Win", win_moves s) w' /\
    In A (win_moves s) /\
    block_win_moves s = block_win_moves (scan_board O (heap w board) c l1) /\
    open_four_moves s = open_four_moves (scan_board O (heap w board) c l1) /\
    block_open_four_moves s
      = block_open_four_moves (scan_board O (heap w board) c l1) /\
    ~ In B (block_win_moves s) /\
    ~ In B (open_four_moves s) /\
    ~ In B (block_open_four_moves s).
Proof.
  intros Hb Hmoves HA HB HnB.
  destruct (check_block_win_scan_reads board (Some c) w Hb)
    as (w' & Hscan & _ & _).
  cbn [color_or_default] in Hscan. rewrite Hmoves in Hscan.
  set (b := heap w board) in *.
  set (s := scan_board O b c (l1 ++ A :: l2)) in *.
  set (s1 := scan_board O b c l1).
  assert (Hs : s = scan_moves O b c (check_block_win_gomoku O b c)
                 (check_open_four_gomoku O b c)
                 (check_block_open_four_gomoku O b c) l2
                 (step_candidate O (play_move_gomoku O b A c) c
                    (check_block_win_gomoku O b c)
                    (check_open_four_gomoku O b c)
                    (check_block_open_four_gomoku O b c) A s1)).
  { subst s s1. unfold scan_board. now rewrite scan_moves_app. }
  destruct (step_candidate_win (play_move_gomoku O b A c) c
              (check_block_win_gomoku O b c) (check_open_four_gomoku O b c)
              (check_block_open_four_gomoku O b c) A s1 HA)
    as (Hfw & Hwm & Hbm & Hom & Hbom).
  destruct (scan_moves_sticky b c (check_block_win_gomoku O b c)
              (check_open_four_gomoku O b c)
              (check_block_open_four_gomoku O b c) l2 _ Hfw)
    as (Gfw & Gbm & Gom & Gbom).
  cbv zeta in *. rewrite <- Hs in Gfw, Gbm, Gom, Gbom.
  rewrite Hbm in Gbm. rewrite Hom in Gom. rewrite Hbom in Gbom.
  destruct (scan_moves_win_moves b c (check_block_win_gomoku O b c)
              (check_open_four_gomoku O b c)
              (check_block_open_four_gomoku O b c) (l1 ++ A :: l2) scan_init)
    as (Hwin & _).
  fold (scan_board O b c (l1 ++ A :: l2)) in Hwin. fold s in Hwin.
  cbv zeta in Hwin. cbn [win_moves scan_init app] in Hwin.
  destruct (scan_moves_incl b c (check_block_win_gomoku O b c)
              (check_open_four_gomoku O b c)
              (check_block_open_four_gomoku O b c) l1 B scan_init)
    as (_ & I2 & I3 & I4).
  fold (scan_board O b c l1) in I2, I3, I4. fold s1 in I2, I3, I4.
  cbv zeta in I2, I3, I4. cbn [scan_init block_win_moves open_four_moves
    block_open_four_moves] in I2, I3, I4.
  exists s, w'. split; [exact Hscan |]. split.
  { unfold check_block_win, bind. rewrite Hscan. cbn [fst snd].
    unfold check_block_win_result. rewrite Gfw. reflexivity. }
  split.
  { rewrite Hwin. apply filter_In. split; [| exact HA].
    apply in_or_app. right. now left. }
  repeat split; auto.
  - rewrite Gbm. intros H. destruct (I2 H) as [[] | ?]; contradiction.
  - rewrite Gom. intros H. destruct (I3 H) as [[] | ?]; contradiction.
  - rewrite Gbom. intros H. destruct (I4 H) as [[] | ?]; contradiction.
Qed.

(** Claim C4 (winning moves are always collected). On a board where the
    game has not ended and some legal move makes [c] win at once,
    [check_block_win] returns category Win, and the list it returns is the
    list of all legal candidates after which the game has ended; so it
    contains every legal candidate that makes [c] win, also those met after
    [found_win] was set. *)
Theorem check_block_win_collects_wins (w : world Board Rng) board c :
  board < next w ->
  fst (check_game_end_gomoku O (heap w board)) = false ->
  (exists mv,
     In mv (generate_legal_moves_gomoku O (heap w board)) /\
     check_game_end_gomoku O (play_move_gomoku O (heap w board) mv c)
       = (true, Some c)) ->
  exists wins w',
    check_block_win O board (Some c) w = Ok ("Win", wins) w' /\
    wins = List.filter (ends_game O (heap w board) c)
             (generate_legal_moves_gomoku O (heap w board)) /\
    forall mv,
      In mv (generate_legal_moves_gomoku O (heap w board)) ->
      check_game_end_gomoku O (play_move_gomoku O (heap w board) mv c)
        = (true, Some c) ->
      In mv wins.
Proof.
  intros Hb _ (mv0 & Hin0 & Hwin0).
  destruct (check_block_win_reads board (Some c) w Hb) as (w' & Hrun & _ & _).
  cbn [color_or_default] in Hrun.
  set (b := heap w board) in *.
  set (moves := generate_legal_moves_gomoku O b) in *.
  destruct (scan_moves_win_moves b c (check_block_win_gomoku O b c)
              (check_open_four_gomoku O b c)
              (check_block_open_four_gomoku O b c) moves scan_init)
    as (Hwm & Hfw).
  fold (scan_board O b c moves) in Hwm, Hfw. cbv zeta in Hwm, Hfw.
  cbn [scan_init win_moves found_win app orb] in Hwm, Hfw.
  assert (Hex : existsb (ends_game O b c) moves = true).
  { apply existsb_exists. exists mv0. split; [exact Hin0 |].
    unfold ends_game. now rewrite Hwin0. }
  exists (List.filter (ends_game O b c) moves), w'. split; [| split].
  - rewrite Hrun. unfold check_block_win_result.
    rewrite Hfw, Hex, Hwm. reflexivity.
  - reflexivity.
  - intros mv Hin Hwin. apply filter_In. split; [exact Hin |].
    unfold ends_game. now rewrite Hwin.
Qed.

(** Claim C5 (one ply of the rule-guided playout). On a board where the
    game has not ended, [rules_simulation] asks [check_block_win] on a
    duplicate; if the returned list is empty it returns 0.5; otherwise it
    takes the last element of the list; if that is PASS it returns 0.5;
    otherwise it plays that move on the board it was given and returns what
    the recursive call for the opponent returns. *)
Theorem rules_simulation_ply fuel (w : world Board Rng) board oc c :
  board < next w ->
  fst (check_game_end_gomoku O (heap w board)) = false ->
  exists dup w1 category moves w2,
    copy board w = Ok dup w1 /\
    check_block_win O dup (Some c) w1 = Ok (category, moves) w2 /\
    (category, moves) = classify O (heap w board) c /\
    heap w2 board = heap w board /\
    (moves = [] ->
     rules_simulation O (S fuel) board oc c w = Ok (1 # 2)%Q w2) /\
    (forall front mv, moves = (front ++ [mv])%list ->
       (mv = PASS ->
        rules_simulation O (S fuel) board oc c w = Ok (1 # 2)%Q w2) /\
       (mv <> PASS ->
        rules_simulation O (S fuel) board oc c w =
        rules_simulation O fuel board oc (opponent O c)
          (played O w2 board mv c) /\
        heap (played O w2 board mv c) board
          = play_move_gomoku O (heap w board) mv c)).
Proof.
  intros Hb Hend.
  destruct (rules_simulation_classifies board c w)
    as (w2 & Hrun & (Hn & Hs & Hh) & Hrng).
  assert (Hboard : heap w2 board = heap w board) by now apply Hh.
  pose proof (rules_simulation_unfold fuel board oc c w _ _ _ _ Hend
                eq_refl Hrun) as Hstep.
  destruct (classify O (heap w board) c) as [category moves] eqn:Hcl.
  eexists _, _, category, moves, w2.
  split; [reflexivity |]. split; [exact Hrun |]. split; [reflexivity |].
  split; [exact Hboard |]. cbn [snd] in Hstep. split.
  - intros ->. exact Hstep.
  - intros front mv ->. rewrite rev_app_distr in Hstep. cbn in Hstep.
    split.
    + intros ->. exact Hstep.
    + intros Hne. destruct mv as [| p]; [contradiction |]. cbn in Hstep.
      split; [exact Hstep |]. cbn. rewrite upd_eq. now rewrite Hboard.
Qed.

Hypothesis L : oracle_laws O.

(** [random_simulation] returns when the budget exceeds the number of
    empty cells; it leaves [STACK] as it was, changes no object that
    existed but the one it was given, and on that one it has played at
    most one move. *)
Lemma random_simulation_total fuel :
  forall board oc c (w : world Board Rng),
    is_player c -> board < next w ->
    empties O (heap w board) < fuel ->
    exists v w',
      random_simulation O fuel board oc c w = Ok v w' /\
      frame_but board w w' /\
      (heap w' board = heap w board \/
       exists mv, In mv (get_empty_points O (heap w board)) /\
         heap w' board = play_move_gomoku O (heap w board) mv c).
Proof.
  induction fuel as [| fuel IH]; intros board oc c w Hc Hb Hfuel; [lia |].
  rewrite random_simulation_step. cbv zeta.
  destruct (fst (check_game_end_gomoku O (heap w board)) &&
            winner_is (snd (check_game_end_gomoku O (heap w board))) oc).
  { exists true, w. repeat split; auto. }
  destruct (generate_random_move_gomoku O (heap w board) (rng w))
    as [mv g] eqn:Hmv. cbn [fst snd].
  destruct (is_PASS mv) eqn:Hpass.
  { eexists false, _. split; [reflexivity |]. repeat split; auto. }
  assert (Hin : In mv (get_empty_points O (heap w board))).
  { eapply random_move_empty; eauto using is_PASS_false. }
  pose proof (play_fills O L _ _ c Hin Hc) as Hlt.
  destruct (IH (S (next w)) oc (opponent O c) (after_move O w board mv c g))
    as (v & w2 & Hrun & (Hn & Hs & Hh) & _).
  { now apply opponent_player. }
  { cbn. lia. }
  { cbn. rewrite upd_eq. lia. }
  rewrite Hrun. cbn in Hs. rewrite Hs.
  eexists v, _. split; [reflexivity |]. cbn in Hn.
  split; [repeat split; cbn; auto; try lia |].
  - intros x Hx Hne. rewrite Hh by (cbn; lia). cbn.
    rewrite upd_lt by lia. rewrite upd_ne by assumption.
    rewrite upd_lt by lia. reflexivity.
  - right. exists mv. split; [assumption |]. cbn.
    rewrite Hh by (cbn; lia). cbn.
    rewrite upd_lt by lia. now rewrite upd_eq.
Qed.

(** [rules_simulation] returns when the budget exceeds the number of
    empty cells; its score is 0, 0.5 or 1; it changes no object that
    existed but the one it was given, which it leaves with no more empty
    cells than before, and with fewer when it played a move. *)
Lemma rules_simulation_total fuel :
  forall board oc c (w : world Board Rng),
    is_player c -> board < next w ->
    empties O (heap w board) < fuel ->
    exists v w',
      rules_simulation O fuel board oc c w = Ok v w' /\
      frame_but board w w' /\ rng w' = rng w /\
      (v = 0 \/ v = (1 # 2) \/ v = 1)%Q /\
      empties O (heap w' board) <= empties O (heap w board) /\
      (fst (check_game_end_gomoku O (heap w board)) = false ->
       (exists mv rest,
          List.rev (snd (classify O (heap w board) c)) = mv :: rest /\
          mv <> PASS) ->
       empties O (heap w' board) < empties O (heap w board)).
Proof.
  induction fuel as [| fuel IH]; intros board oc c w Hc Hb Hfuel; [lia |].
  destruct (fst (check_game_end_gomoku O (heap w board))) eqn:Hend.
  { rewrite rules_simulation_terminal by assumption.
    eexists _, w. split; [reflexivity |].
    repeat split; auto.
    - destruct (winner_is _ oc); auto.
    - discriminate. }
  destruct (rules_simulation_step fuel board oc c w Hend)
    as (w2 & (Hn & Hs & Hh) & Hrng & Hrun).
  rewrite Hrun. clear Hrun.
  destruct (List.rev (snd (classify O (heap w board) c)))
    as [| mv rest] eqn:Hrev.
  { exists (1 # 2)%Q, w2. split; [reflexivity |].
    repeat split; auto.
    - now rewrite Hh.
    - intros _ (mv & rest & Heq & _). discriminate. }
  destruct (is_PASS mv) eqn:Hpass.
  { exists (1 # 2)%Q, w2. split; [reflexivity |].
    repeat split; auto.
    - now rewrite Hh.
    - intros _ (mv' & rest' & Heq & Hne). injection Heq as <- _.
      apply is_PASS_true in Hpass. contradiction. }
  assert (Hin : In mv (get_empty_points O (heap w board))).
  { apply (legal_move_empty O L); [| now apply is_PASS_false].
    apply (classify_incl _ c). eapply rev_head_In; eauto. }
  pose proof (play_fills O L _ _ c Hin Hc) as Hlt.
  destruct (IH board oc (opponent O c) (played O w2 board mv c))
    as (v & w' & Hrun & (Hn' & Hs' & Hh') & Hrng' & Hv & Hle & _).
  { now apply opponent_player. }
  { cbn. lia. }
  { cbn. rewrite upd_eq, Hh by assumption. lia. }
  exists v, w'. split; [exact Hrun |]. cbn in *.
  rewrite upd_eq, Hh in Hle by assumption.
  repeat split; auto; try lia; try congruence.
  intros x Hx Hne. rewrite Hh' by (auto; lia).
  rewrite upd_ne by assumption. now apply Hh.
Qed.

(** Claim C8 (the playouts terminate). For a board oracle in which random
    and legal moves are empty points and a player's stone fills its point,
    [random_simulation] and [rules_simulation] return once the recursion
    budget exceeds the number of empty cells of the board: the depth of
    the recursion is bounded by the board area. *)
Theorem playouts_terminate (w : world Board Rng) board oc c fuel :
  is_player c -> board < next w ->
  empties O (heap w board) < fuel ->
  (exists v w', random_simulation O fuel board oc c w = Ok v w') /\
  (exists v w', rules_simulation O fuel board oc c w = Ok v w').
Proof.
  intros Hc Hb Hfuel. split.
  - destruct (random_simulation_total fuel board oc c w Hc Hb Hfuel)
      as (v & w' & H & _). eauto.
  - destruct (rules_simulation_total fuel board oc c w Hc Hb Hfuel)
      as (v & w' & H & _). eauto.
Qed.

(** The object given to [rules_simulation] ends as the board on which the
    whole playout has been played, and on that board the playout cannot go
    on for some colour. *)
Lemma rules_simulation_board fuel :
  forall board oc c (w : world Board Rng) v w',
    board < next w ->
    rules_simulation O fuel board oc c w = Ok v w' ->
    heap w' board = rules_board O fuel (heap w board) c /\
    exists c', playout_over O (heap w' board) c' = true.
Proof.
  induction fuel as [| fuel IH]; intros board oc c w v w' Hb H; [discriminate |].
  cbn [rules_board].
  destruct (fst (check_game_end_gomoku O (heap w board))) eqn:Hend.
  { rewrite rules_simulation_terminal in H by assumption.
    injection H as _ <-. split; [reflexivity |].
    exists c. unfold playout_over. now rewrite Hend. }
  destruct (rules_simulation_step fuel board oc c w Hend)
    as (w2 & (Hn & Hs & Hh) & Hrng & Hrun).
  rewrite Hrun in H. clear Hrun.
  destruct (List.rev (snd (classify O (heap w board) c)))
    as [| mv rest] eqn:Hrev.
  { injection H as _ <-. rewrite Hh by assumption. split; [reflexivity |].
    exists c. unfold playout_over. rewrite Hrev. apply orb_true_r. }
  destruct (is_PASS mv) eqn:Hpass.
  { injection H as _ <-. rewrite Hh by assumption. split; [reflexivity |].
    exists c. unfold playout_over. rewrite Hrev, Hpass. apply orb_true_r. }
  apply IH in H; [| cbn; lia].
  destruct H as (Heq & Hover). split; [| exact Hover].
  rewrite Heq. cbn. rewrite upd_eq. now rewrite Hh.
Qed.

(** The object given to [random_simulation] ends with the first drawn
    move on it and nothing more. *)
Lemma random_simulation_board fuel board oc c (w : world Board Rng) v w' :
  board < next w ->
  random_simulation O fuel board oc c w = Ok v w' ->
  heap w' board = random_board O (heap w board) (rng w) oc c.
Proof.
  intros Hb H. destruct fuel as [| fuel]; [discriminate |].
  rewrite random_simulation_step in H. cbv zeta in H. unfold random_board.
  destruct (fst (check_game_end_gomoku O (heap w board)) &&
            winner_is (snd (check_game_end_gomoku O (heap w board))) oc).
  { now injection H as _ <-. }
  destruct (generate_random_move_gomoku O (heap w board) (rng w)) as [mv g].
  cbn [fst snd] in *.
  destruct (is_PASS mv).
  { now injection H as _ <-. }
  destruct (random_simulation O fuel (S (next w)) oc (opponent O c)
              (after_move O w board mv c g)) as [st w2 | |] eqn:Hrec;
    try discriminate.
  apply random_simulation_frame in Hrec; [| cbn; lia].
  destruct Hrec as (Hn & Hs & Hh). cbn in Hn, Hs.
  rewrite Hs in H. injection H as _ <-. cbn.
  rewrite Hh by (cbn; lia). cbn.
  rewrite upd_lt by lia. now rewrite upd_eq.
Qed.

Lemma random_playouts_total fuel self_board c n :
  forall wins (w : world Board Rng),
    is_player c -> self_board < next w ->
    empties O (heap w self_board) < fuel ->
    exists v w', random_playouts O fuel n self_board c wins w = Ok v w'.
Proof.
  induction n as [| n IH]; intros wins w Hc Hb Hfuel; cbn [random_playouts].
  - eexists _, _. reflexivity.
  - unfold bind. cbn [copy].
    set (w1 := {| heap := upd (heap w) (next w) (heap w self_board);
                  next := S (next w); STACK := STACK w; rng := rng w |}).
    destruct (random_simulation_total fuel (next w) c c w1)
      as (r & w2 & Hrun & (Hn & Hs & Hh) & _).
    { assumption. }
    { subst w1. cbn. lia. }
    { subst w1. cbn. rewrite upd_eq. assumption. }
    rewrite Hrun. subst w1. cbn in Hn, Hs, Hh.
    apply IH; [assumption | lia |].
    rewrite Hh by lia. rewrite upd_lt by lia. assumption.
Qed.

Lemma rules_playouts_total fuel temp_board c n :
  forall wins (w : world Board Rng),
    is_player c -> temp_board < next w ->
    empties O (heap w temp_board) < fuel ->
    exists v w', rules_playouts O fuel n temp_board c wins w = Ok v w'.
Proof.
  induction n as [| n IH]; intros wins w Hc Hb Hfuel; cbn [rules_playouts].
  - eexists _, _. reflexivity.
  - unfold bind. cbn [copy].
    set (w1 := {| heap := upd (heap w) (next w) (heap w temp_board);
                  next := S (next w); STACK := STACK w; rng := rng w |}).
    destruct (rules_simulation_total fuel (next w) c (opponent O c) w1)
      as (r & w2 & Hrun & (Hn & Hs & Hh) & _).
    { now apply opponent_player. }
    { subst w1. cbn. lia. }
    { subst w1. cbn. rewrite upd_eq. assumption. }
    rewrite Hrun. subst w1. cbn in Hn, Hs, Hh.
    apply IH; [assumption | lia |].
    rewrite Hh by lia. rewrite upd_lt by lia. assumption.
Qed.

Lemma random_candidate_total fuel self_board c mv (w : world Board Rng) :
  is_player c -> self_board < next w ->
  empties O (heap w self_board) < fuel ->
  exists v w', random_candidate O fuel self_board c mv w = Ok v w'.
Proof.
  intros Hc Hb Hfuel. unfold random_candidate, bind.
  destruct (random_playouts_total fuel self_board c 10 0%Z w Hc Hb Hfuel)
    as (z & w1 & Hrun).
  rewrite Hrun. eexists _, _. reflexivity.
Qed.

Lemma rules_candidate_total fuel self_board c mv (w : world Board Rng) :
  is_player c -> self_board < next w ->
  empties O (heap w self_board) < fuel ->
  In mv (generate_legal_moves_gomoku O (heap w self_board)) -> mv <> PASS ->
  exists v w', rules_candidate O fuel self_board c mv w = Ok v w'.
Proof.
  intros Hc Hb Hfuel Hin Hne. unfold rules_candidate, bind. cbn [copy play].
  apply rules_playouts_total; [assumption | cbn; lia |].
  cbn. rewrite upd_eq. rewrite upd_eq.
  pose proof (legal_move_empty O L _ _ Hin Hne) as Hempty.
  pose proof (play_fills O L _ _ c Hempty Hc). lia.
Qed.

(** Every candidate is evaluated, one after the other, on the board of
    [self.board], which no evaluation changes. *)
Lemma eval_candidates_total candidate self_board (b : Board) moves :
  (forall mv (w : world Board Rng) v w',
     candidate mv w = Ok v w' -> frame w w') ->
  (forall mv (w : world Board Rng),
     In mv moves -> self_board < next w -> heap w self_board = b ->
     exists v w', candidate mv w = Ok v w') ->
  forall w,
    self_board < next w -> heap w self_board = b ->
    exists wins w', eval_candidates candidate moves w = Ok wins w'.
Proof.
  intros Hframe. induction moves as [| mv rest IH]; intros Htotal w Hb Hheap;
    cbn [eval_candidates].
  - eexists _, _. reflexivity.
  - unfold bind.
    destruct (Htotal mv w) as (v & w1 & Hrun); [now left | assumption.. |].
    rewrite Hrun. destruct (Hframe _ _ _ _ Hrun) as (Hn & _ & Hh).
    destruct (IH (fun m x Hm => Htotal m x (or_intror Hm)) w1)
      as (more & w2 & Hrest); [lia | now rewrite Hh |].
    rewrite Hrest. eexists _, _. reflexivity.
Qed.

(** Claim C6 (tie-break of the evaluator). On a board where the game has
    not ended, [genmove_cmd] under either policy evaluates every candidate
    and returns. With no candidate the best move stays [None]. Otherwise a
    candidate is selected, and it is the one at the first position of
    greatest ratio: its ratio is at least every candidate's and strictly
    greater than the ratio of every candidate before it, so a later
    candidate replaces the best only with a strictly greater ratio and of
    equal ratios the earliest is kept; when no ratio is above 0 it is the
    first element of the list, the default best. *)
Theorem genmove_cmd_tie_break fuel POLICY (w : world Board Rng) self_board c :
  is_player c -> self_board < next w ->
  empties O (heap w self_board) < fuel ->
  fst (check_game_end_gomoku O (heap w self_board)) = false ->
  ~ In PASS (generate_legal_moves_gomoku O (heap w self_board)) ->
  let moves := generate_legal_moves_gomoku O (heap w self_board) in
  let candidate :=
    match POLICY with
    | policy_random => random_candidate O fuel self_board c
    | policy_rule_based => rules_candidate O fuel self_board c
    end in
  exists wins w',
    eval_candidates candidate moves w = Ok wins w' /\
    List.length wins = List.length moves /\
    match moves with
    | [] => genmove_cmd O fuel POLICY self_board c w = Ok (selected None) w'
    | first :: _ =>
        exists i best,
          genmove_cmd O fuel POLICY self_board c w
            = Ok (selected (Some best)) w' /\
          moves !! i = Some best /\
          first_greatest wins i /\
          ((forall wj, In wj wins -> (ratio_of wj <= 0)%Q) ->
           i = 0 /\ best = first)
    end.
Proof.
  intros Hc Hb Hfuel Hend Hnopass moves candidate.
  assert (Hframe : forall mv (x : world Board Rng) v x',
             candidate mv x = Ok v x' -> frame x x').
  { subst candidate. destruct POLICY; intros mv x v x'.
    - apply random_candidate_frame.
    - apply rules_candidate_frame. }
  destruct (eval_candidates_total candidate self_board (heap w self_board)
              moves Hframe) with (w := w) as (wins & w' & Heval);
    [| assumption | reflexivity |].
  { intros mv x Hin Hx Hheap. subst candidate. destruct POLICY.
    - apply random_candidate_total; [assumption.. |]. now rewrite Hheap.
    - apply rules_candidate_total; [assumption.. | | |].
      + now rewrite Hheap.
      + now rewrite Hheap.
      + intros ->. now apply Hnopass. }
  exists wins, w'. split; [exact Heval |].
  pose proof (eval_candidates_length _ _ _ _ _ Heval) as Hlen.
  split; [exact Hlen |].
  assert (Hcmd : genmove_cmd O fuel POLICY self_board c w
                 = Ok (selected (fst (select_best moves wins None 0%Q))) w').
  { unfold genmove_cmd. unfold bind at 1. cbn [query]. rewrite Hend.
    unfold bind at 1. cbn [query]. fold moves.
    unfold bind at 1.
    assert (Hloop : match POLICY with
                    | policy_random =>
                        genmove_random_loop O fuel self_board c moves None 0%Q
                    | policy_rule_based =>
                        genmove_rules_loop O fuel self_board c moves None 0%Q
                    end w = Ok (select_best moves wins None 0%Q) w').
    { subst candidate. destruct POLICY.
      - rewrite genmove_random_loop_select. unfold bind. now rewrite Heval.
      - rewrite genmove_rules_loop_select. unfold bind. now rewrite Heval. }
    rewrite Hloop. reflexivity. }
  destruct moves as [| first rest] eqn:Hmoves.
  { destruct wins; [| discriminate]. exact Hcmd. }
  assert (Hpos : Forall (fun v => 0 <= ratio_of v)%Q wins).
  { eapply eval_candidates_Forall; [| exact Heval].
    subst candidate. destruct POLICY; intros mv x v x'.
    - apply random_candidate_nonneg.
    - apply rules_candidate_nonneg. }
  destruct (select_best (first :: rest) wins None 0%Q) as [bm br] eqn:Hsel.
  destruct (select_best_first_greatest (first :: rest) wins bm br
              (eq_sym Hlen) Hpos ltac:(discriminate) Hsel)
    as (i & best & -> & Hi & Hfg).
  exists i, best. split; [exact Hcmd |]. split; [exact Hi |].
  split; [exact Hfg |].
  intros Hzero. destruct Hfg as (wi & Hwi & Hall).
  destruct i as [| i].
  - split; [reflexivity |]. cbn in Hi. now injection Hi as <-.
  - exfalso. destruct wins as [| w0 more]; [discriminate |].
    destruct (Hall 0 w0 eq_refl) as (_ & Hlt).
    specialize (Hlt ltac:(lia)).
    inversion Hpos as [| ? ? Hw0 _]; subst.
    assert (Hwi0 : (ratio_of wi <= 0)%Q).
    { apply Hzero. cbn in Hwi. right.
      clear - Hwi. revert i Hwi.
      induction more as [| a l IHl]; intros [| i] H; cbn in H;
        try discriminate.
      - injection H as <-. now left.
      - right. eapply IHl, H. }
    apply (Qlt_irrefl 0). eapply Qle_lt_trans; [exact Hw0 |].
    eapply Qlt_le_trans; [exact Hlt | exact Hwi0].
Qed.

(** Claim C9 (which object the playouts mutate). [rules_simulation] plays
    its whole playout on the object it is given: when it returns, that
    object holds the board after every move of the playout, one played on
    the other, on which the playout cannot go on; other objects that
    existed are unchanged, and the given one has no more empty cells than
    before, strictly fewer when a move was played. [random_simulation]
    leaves the given object with the first drawn move played on it and
    nothing more, however long the playout, which runs on copies. The
    rule-based loop of [genmove_cmd], which hands duplicates to the
    playouts, leaves the board of [self.board] unchanged. *)
Theorem playouts_mutation (w : world Board Rng) board oc c fuel :
  is_player c -> board < next w ->
  empties O (heap w board) < fuel ->
  (exists v w',
     rules_simulation O fuel board oc c w = Ok v w' /\
     frame_but board w w' /\
     heap w' board = rules_board O fuel (heap w board) c /\
     (exists c', playout_over O (heap w' board) c' = true) /\
     empties O (heap w' board) <= empties O (heap w board) /\
     (fst (check_game_end_gomoku O (heap w board)) = false ->
      (exists mv rest,
         List.rev (snd (classify O (heap w board) c)) = mv :: rest /\
         mv <> PASS) ->
      empties O (heap w' board) < empties O (heap w board))) /\
  (exists v w',
     random_simulation O fuel board oc c w = Ok v w' /\
     frame_but board w w' /\
     heap w' board = random_board O (heap w board) (rng w) oc c /\
     (heap w' board = heap w board \/
      exists mv, In mv (get_empty_points O (heap w board)) /\
        heap w' board = play_move_gomoku O (heap w board) mv c)) /\
  (forall moves best_move best_ratio r w',
     genmove_rules_loop O fuel board c moves best_move best_ratio w = Ok r w' ->
     heap w' board = heap w board).
Proof.
  intros Hc Hb Hfuel. split; [| split].
  - destruct (rules_simulation_total fuel board oc c w Hc Hb Hfuel)
      as (v & w' & H & Hfr & _ & _ & Hle & Hlt).
    destruct (rules_simulation_board fuel board oc c w v w' Hb H)
      as (Hboard & Hover).
    exists v, w'. auto 10.
  - destruct (random_simulation_total fuel board oc c w Hc Hb Hfuel)
      as (v & w' & H & Hfr & Hone).
    pose proof (random_simulation_board fuel board oc c w v w' Hb H).
    exists v, w'. auto 10.
  - intros moves bm br r w' H.
    rewrite genmove_rules_loop_select in H.
    apply bind_Ok in H. destruct H as (wins & w1 & Heval & H).
    injection H as _ <-.
    apply eval_candidates_frame in Heval.
    + destruct Heval as (_ & _ & Hh). now apply Hh.
    + intros mv x v x'. apply rules_candidate_frame.
Qed.

End EngineTheory.

(** ** The concrete board satisfies the laws *)
Module GoBoardLaws.

Lemma color_eqb_eq a b : color_eqb a b = true <-> a = b.
Proof. destruct a, b; cbn; split; congruence. Qed.

Lemma empty_points_from_In cs :
  forall i mv,
    In mv (GoBoard.empty_points_from i cs) ->
    exists p, mv = Pt (i + p) /\ cs !! p = Some EMPTY.
Proof.
  induction cs as [| c cs IH]; intros i mv H; cbn in H; [contradiction |].
  destruct (color_eqb c EMPTY) eqn:Hc.
  - destruct H as [<- | H].
    + exists 0. apply color_eqb_eq in Hc. subst c.
      split; [f_equal; lia | reflexivity].
    + destruct (IH _ _ H) as (p & -> & Hp). exists (S p).
      split; [f_equal; lia | exact Hp].
  - destruct (IH _ _ H) as (p & -> & Hp). exists (S p).
    split; [f_equal; lia | exact Hp].
Qed.

Lemma empty_points_from_fill cs :
  forall i p c,
    cs !! p = Some EMPTY -> c <> EMPTY ->
    S (List.length (GoBoard.empty_points_from i (<[p := c]> cs)))
    = List.length (GoBoard.empty_points_from i cs).
Proof.
  induction cs as [| c0 cs IH]; intros i p c Hp Hc; [discriminate |].
  destruct p as [| p]; cbn in Hp.
  - injection Hp as ->. cbn.
    destruct (color_eqb c EMPTY) eqn:Hce; [| reflexivity].
    apply color_eqb_eq in Hce. contradiction.
  - cbn. destruct (color_eqb c0 EMPTY); cbn; rewrite (IH _ _ _ Hp Hc);
      reflexivity.
Qed.

Lemma the_oracle_laws : oracle_laws GoBoard.the_oracle.
Proof.
  constructor.
  - intros b g m g' H Hne.
    change (GoBoard.generate_random_move_gomoku b g = (m, g')) in H.
    change (In m (GoBoard.get_empty_points b)).
    unfold GoBoard.generate_random_move_gomoku in H.
    destruct (GoBoard.get_empty_points b) as [| e es] eqn:He.
    + injection H as <- _. contradiction.
    + apply (f_equal fst) in H. cbn [fst] in H. rewrite <- H.
      apply nth_In. apply Nat.mod_upper_bound. discriminate.
  - intros b m H _. exact H.
  - intros b m c Hin Hc. unfold empties.
    change (In m (GoBoard.empty_points_from 0 (GoBoard.cells b))) in Hin.
    change (List.length (GoBoard.empty_points_from 0
              (GoBoard.cells (GoBoard.play_move_gomoku b m c)))
            < List.length (GoBoard.empty_points_from 0 (GoBoard.cells b))).
    destruct (empty_points_from_In _ _ _ Hin) as (p & -> & Hp).
    unfold GoBoard.play_move_gomoku, GoBoard.cell. cbn [Nat.add].
    rewrite Hp. cbn [color_eqb GoBoard.cells].
    assert (Hne : c <> EMPTY) by (destruct Hc; subst; discriminate).
    pose proof (empty_points_from_fill (GoBoard.cells b) 0 p c Hp Hne). lia.
  - intros c [-> | ->]; [right | left]; reflexivity.
Qed.

End GoBoardLaws.

(** ** The player of [Gomoku3.py] *)
Module Gomoku3Theory.
Import Gomoku3.

Section PlayerTheory.

Context {State : Type}.
Variable P : state_ops State.
Variable self : gmap string (attr State).
Variable globals : gmap string color.

Lemma getattr_state name a (st st' : State) :
  getattr self name st = Ok a st' -> st' = st.
Proof.
  unfold getattr. destruct (self !! name); [| discriminate].
  intros H. now injection H as _ <-.
Qed.

Lemma getattr_int_state name z (st st' : State) :
  getattr_int self name st = Ok z st' -> st' = st.
Proof.
  intros H. apply bind_Ok in H. destruct H as (a & st1 & Ha & H).
  apply getattr_state in Ha. subst st1.
  destruct a; try discriminate. now injection H as _ <-.
Qed.

Lemma global_state name c (st st' : State) :
  global globals name st = Ok c st' -> st' = st.
Proof.
  unfold global. destruct (globals !! name); [| discriminate].
  intros H. now injection H as _ <-.
Qed.

Lemma assert_state b (st st' : State) u :
  assert b st = Ok u st' -> b = true /\ st' = st.
Proof.
  unfold assert. destruct b; [| discriminate].
  intros H. now injection H as _ <-.
Qed.

Lemma index_state stats c v (st st' : State) :
  index stats c st = Ok v st' -> st' = st.
Proof.
  unfold index. destruct (stats !! color_code c); [| discriminate].
  intros H. now injection H as _ <-.
Qed.

(** When [simulate] returns, the move it committed has been taken back:
    the two asserts pin the count before [undoMove] to the one recorded
    after [play]. *)
Lemma simulate_move_count (L : state_laws P) mv st v st' :
  In mv (generate_legal_moves_gomoku P st) ->
  simulate P self globals mv st = Ok v st' ->
  moveNumber P st' = moveNumber P st.
Proof.
  intros Hlegal H. unfold simulate in H.
  apply bind_Ok in H. destruct H as ([] & s1 & H1 & H). injection H1 as <-.
  apply bind_Ok in H. destruct H as (moveNr & s2 & H2 & H).
  injection H2 as <- <-.
  apply bind_Ok in H. destruct H as (n & s3 & H3 & H).
  apply getattr_int_state in H3. subst s3.
  apply bind_Ok in H. destruct H as (stats & s4 & _ & H).
  apply bind_Ok in H. destruct H as (n1 & s5 & H5 & H).
  apply getattr_int_state in H5. subst s5.
  apply bind_Ok in H. destruct H as (u1 & s6 & H6 & H).
  apply assert_state in H6. destruct H6 as (_ & ->).
  apply bind_Ok in H. destruct H as (now & s7 & H7 & H).
  injection H7 as <- <-.
  apply bind_Ok in H. destruct H as (u2 & s8 & H8 & H).
  apply assert_state in H8. destruct H8 as (Hcount & ->).
  apply Z.eqb_eq in Hcount.
  apply bind_Ok in H. destruct H as ([] & s9 & H9 & H). injection H9 as <-.
  assert (Hundo : moveNumber P (undoMove P s4) = moveNumber P st).
  { rewrite (play_count P L) in Hcount by assumption.
    rewrite (undo_count P L).
    - lia.
    - pose proof (count_nonneg P L st). lia. }
  apply bind_Ok in H. destruct H as (black & s10 & H10 & H).
  apply global_state in H10. subst s10.
  apply bind_Ok in H. destruct H as (sb & s11 & H11 & H).
  apply index_state in H11. subst s11.
  apply bind_Ok in H. destruct H as (empty & s12 & H12 & H).
  apply global_state in H12. subst s12.
  apply bind_Ok in H. destruct H as (se & s13 & H13 & H).
  apply index_state in H13. subst s13.
  apply bind_Ok in H. destruct H as (n2 & s14 & H14 & H).
  apply getattr_int_state in H14. subst s14.
  destruct (n2 =? 0)%Z; [discriminate |].
  apply bind_Ok in H. destruct H as (tp & s15 & H15 & H).
  injection H15 as _ <-.
  apply bind_Ok in H. destruct H as (white & s16 & H16 & H).
  apply global_state in H16. subst s16.
  destruct (color_eqb tp white); injection H as _ <-; exact Hundo.
Qed.

End PlayerTheory.

Lemma instance_lacks_check (State : Type) :
  instance State !! "check_game_end_gomoku" = None.
Proof. reflexivity. Qed.

Lemma instance_lacks_numSimulations (State : Type) :
  instance State !! "numSimulations" = None.
Proof. reflexivity. Qed.

End Gomoku3Theory.

(** ** The scored evaluation *)

Lemma history_laws : Gomoku3.state_laws Gomoku3.history_ops.
Proof.
  constructor.
  - intros s. cbn. lia.
  - intros s mv _. cbn [Gomoku3.moveNumber Gomoku3.play Gomoku3.history_ops]. cbn [List.length]. lia.
  - intros s H. cbn [Gomoku3.moveNumber Gomoku3.undoMove Gomoku3.history_ops] in *.
    destruct s; cbn in *; lia.
Qed.

(** Claim C7 (the scored evaluation undoes its move). On an instance as
    the class statement makes it, [simulate] does not return: for every
    position and every legal candidate it raises AttributeError on
    [numSimulations] right after [state.play(move)], whatever names the
    module binds. The position it leaves is the one with the candidate
    committed: its move count is one more than before the call, not the
    count before the call. *)
Theorem simulate_leaves_candidate_committed {State : Type}
    (P : Gomoku3.state_ops State) (L : Gomoku3.state_laws P)
    (globals : gmap string color) mv st :
  In mv (Gomoku3.generate_legal_moves_gomoku P st) ->
  Gomoku3.simulate P (Gomoku3.instance State) globals mv st
    = Raise (AttributeError "numSimulations") (Gomoku3.play P st mv) /\
  Gomoku3.moveNumber P (Gomoku3.play P st mv)
    = (Gomoku3.moveNumber P st + 1)%Z /\
  Gomoku3.moveNumber P (Gomoku3.play P st mv) <> Gomoku3.moveNumber P st.
Proof.
  intros Hlegal. split; [reflexivity |].
  pose proof (Gomoku3.play_count P L st mv Hlegal) as Hcount.
  split; [exact Hcount | lia].
Qed.

Lemma simulate_leaves_candidate_committed_witness :
  Gomoku3.simulate Gomoku3.history_ops (Gomoku3.instance Gomoku3.history)
    Gomoku3.module_globals (Pt 2) [Pt 1]
    = Raise (AttributeError "numSimulations") [Pt 2; Pt 1] /\
  Gomoku3.moveNumber Gomoku3.history_ops [Pt 2; Pt 1] = 2%Z /\
  Gomoku3.moveNumber Gomoku3.history_ops [Pt 1] = 1%Z.
Proof.
  destruct (simulate_leaves_candidate_committed Gomoku3.history_ops
              history_laws Gomoku3.module_globals (Pt 2) [Pt 1])
    as (Hrun & Hcount & _).
  - vm_compute. auto.
  - split; [exact Hrun |]. split; reflexivity.
Defined.

(** Claim C10 (totality of [genmove]), evaluated. On the instance as the
    class statement makes it, [genmove] raises AttributeError at its first
    statement, for every position, and [simulate] raises AttributeError on
    [numSimulations] with the candidate left on the position. When a
    caller adds [board] and [check_game_end_gomoku], [genmove] on the empty
    position still raises on [numSimulations]. *)
Theorem genmove_raises_as_defined :
  (forall (State : Type) (P : Gomoku3.state_ops State) st,
     Gomoku3.genmove P (Gomoku3.instance State) Gomoku3.module_globals st
     = Raise (AttributeError "check_game_end_gomoku") st) /\
  (forall (State : Type) (P : Gomoku3.state_ops State) mv st,
     Gomoku3.simulate P (Gomoku3.instance State) Gomoku3.module_globals mv st
     = Raise (AttributeError "numSimulations") (Gomoku3.play P st mv)) /\
  Gomoku3.genmove Gomoku3.history_ops Gomoku3.board_instance Gomoku3.module_globals []
  = Raise (AttributeError "numSimulations") [Pt 0].
Proof.
  split; [| split].
  - intros State P st. reflexivity.
  - intros State P mv st. reflexivity.
  - vm_compute. reflexivity.
Qed.

(** ** The engine on the concrete board *)

Lemma check_block_win_sticky_flag_witness :
  (GoBoard.check_block_win_gomoku
     (GoBoard.play_move_gomoku Positions.win_and_block (Pt 17) BLACK) BLACK
   < GoBoard.check_block_win_gomoku Positions.win_and_block BLACK)%Z /\
  exists s w',
    check_block_win GoBoard.the_oracle 0 (Some BLACK)
      (GoBoard.world_of Positions.win_and_block []) = Ok ("Win", win_moves s) w' /\
    In (Pt 11) (win_moves s) /\
    ~ In (Pt 17) (block_win_moves s).
Proof.
  split; [vm_compute; reflexivity |].
  destruct (check_block_win_sticky_flag GoBoard.the_oracle
              (GoBoard.world_of Positions.win_and_block []) 0 BLACK [] (Pt 11)
              [Pt 17] (Pt 17))
    as (s & w' & _ & Hrun & HA & _ & _ & _ & HB & _).
  - cbn. lia.
  - vm_compute. reflexivity.
  - vm_compute. reflexivity.
  - now left.
  - intros [].
  - exists s, w'. auto.
Defined.

Lemma check_block_win_collects_wins_witness :
  exists wins w',
    check_block_win GoBoard.the_oracle 0 (Some BLACK)
      (GoBoard.world_of Positions.win_and_block []) = Ok ("Win", wins) w' /\
    wins = [Pt 11].
Proof.
  destruct (check_block_win_collects_wins GoBoard.the_oracle
              (GoBoard.world_of Positions.win_and_block []) 0 BLACK)
    as (wins & w' & Hrun & Heq & _).
  - cbn. lia.
  - vm_compute. reflexivity.
  - exists (Pt 11). split; [now left | vm_compute; reflexivity].
  - exists wins, w'. split; [exact Hrun |]. rewrite Heq. vm_compute. reflexivity.
Defined.

Lemma rules_simulation_ply_witness :
  exists w2,
    rules_simulation GoBoard.the_oracle 3 0 BLACK BLACK
      (GoBoard.world_of Positions.win_and_block []) =
    rules_simulation GoBoard.the_oracle 2 0 BLACK WHITE
      (played GoBoard.the_oracle w2 0 (Pt 11) BLACK).
Proof.
  destruct (rules_simulation_ply GoBoard.the_oracle 2
              (GoBoard.world_of Positions.win_and_block []) 0 BLACK BLACK)
    as (dup & w1 & category & moves & w2 & _ & _ & Hcl & _ & _ & Hlast).
  - cbn. lia.
  - vm_compute. reflexivity.
  - exists w2.
    assert (Hm : moves = ([] ++ [Pt 11])%list).
    { apply (f_equal snd) in Hcl. cbn [snd] in Hcl. rewrite Hcl.
      vm_compute. reflexivity. }
    destruct (Hlast [] (Pt 11) Hm) as (_ & Hplay).
    destruct Hplay as (Hrun & _); [discriminate |]. exact Hrun.
Defined.

Lemma genmove_cmd_tie_break_witness :
  (exists wins w' i best,
     genmove_cmd GoBoard.the_oracle 3 policy_random 0 BLACK
       (GoBoard.world_of Positions.two_left (repeat 1 40))
       = Ok (selected (Some best)) w' /\
     eval_candidates (random_candidate GoBoard.the_oracle 3 0 BLACK)
       [Pt 11; Pt 35] (GoBoard.world_of Positions.two_left (repeat 1 40))
       = Ok wins w' /\
     [Pt 11; Pt 35] !! i = Some best /\ first_greatest wins i) /\
  (exists wins w' i best,
     genmove_cmd GoBoard.the_oracle 3 policy_rule_based 0 BLACK
       (GoBoard.world_of Positions.two_left [])
       = Ok (selected (Some best)) w' /\
     eval_candidates (rules_candidate GoBoard.the_oracle 3 0 BLACK)
       [Pt 11; Pt 35] (GoBoard.world_of Positions.two_left [])
       = Ok wins w' /\
     [Pt 11; Pt 35] !! i = Some best /\ first_greatest wins i).
Proof.
  assert (Hmoves : forall g,
            generate_legal_moves_gomoku GoBoard.the_oracle
              (heap (GoBoard.world_of Positions.two_left g) 0)
            = [Pt 11; Pt 35]) by (intros g; vm_compute; reflexivity).
  assert (Hnopass : forall g,
            ~ In PASS (generate_legal_moves_gomoku GoBoard.the_oracle
                         (heap (GoBoard.world_of Positions.two_left g) 0))).
  { intros g. rewrite Hmoves. intros [H | [H | []]]; discriminate H. }
  split.
  - destruct (genmove_cmd_tie_break GoBoard.the_oracle
                GoBoardLaws.the_oracle_laws 3 policy_random
                (GoBoard.world_of Positions.two_left (repeat 1 40)) 0 BLACK)
      as (wins & w' & Heval & _ & Hsel).
    + now left.
    + cbn. lia.
    + vm_compute. lia.
    + vm_compute. reflexivity.
    + apply Hnopass.
    + rewrite Hmoves in Heval, Hsel.
      destruct Hsel as (i & best & Hcmd & Hi & Hfg & _).
      exists wins, w', i, best. auto.
  - destruct (genmove_cmd_tie_break GoBoard.the_oracle
                GoBoardLaws.the_oracle_laws 3 policy_rule_based
                (GoBoard.world_of Positions.two_left []) 0 BLACK)
      as (wins & w' & Heval & _ & Hsel).
    + now left.
    + cbn. lia.
    + vm_compute. lia.
    + vm_compute. reflexivity.
    + apply Hnopass.
    + rewrite Hmoves in Heval, Hsel.
      destruct Hsel as (i & best & Hcmd & Hi & Hfg & _).
      exists wins, w', i, best. auto.
Defined.

Lemma playouts_terminate_witness :
  (exists v w', random_simulation GoBoard.the_oracle 3 0 BLACK BLACK
                  (GoBoard.world_of Positions.two_left [1; 0]) = Ok v w') /\
  (exists v w', rules_simulation GoBoard.the_oracle 3 0 BLACK BLACK
                  (GoBoard.world_of Positions.two_left [1; 0]) = Ok v w').
Proof.
  apply (playouts_terminate GoBoard.the_oracle GoBoardLaws.the_oracle_laws).
  - now left.
  - cbn. lia.
  - vm_compute. lia.
Defined.

Lemma playouts_mutation_witness :
  empties GoBoard.the_oracle Positions.open_corners = 2 /\
  (exists v w',
     rules_simulation GoBoard.the_oracle 3 0 BLACK BLACK
       (GoBoard.world_of Positions.open_corners []) = Ok v w' /\
     empties GoBoard.the_oracle (heap w' 0) = 0) /\
  (exists v w',
     random_simulation GoBoard.the_oracle 3 0 BLACK BLACK
       (GoBoard.world_of Positions.open_corners [0; 0]) = Ok v w' /\
     empties GoBoard.the_oracle (heap w' 0) = 1).
Proof.
  split; [vm_compute; reflexivity |]. split.
  - destruct (playouts_mutation GoBoard.the_oracle GoBoardLaws.the_oracle_laws
                (GoBoard.world_of Positions.open_corners []) 0 BLACK BLACK 3)
      as ((v & w' & Hrun & _ & Hboard & _) & _ & _).
    + now left.
    + cbn. lia.
    + vm_compute. lia.
    + exists v, w'. split; [exact Hrun |]. rewrite Hboard.
      vm_compute. reflexivity.
  - destruct (playouts_mutation GoBoard.the_oracle GoBoardLaws.the_oracle_laws
                (GoBoard.world_of Positions.open_corners [0; 0]) 0 BLACK
                BLACK 3)
      as (_ & (v & w' & Hrun & _ & Hboard & _) & _).
    + now left.
    + cbn. lia.
    + vm_compute. lia.
    + exists v, w'. split; [exact Hrun |]. rewrite Hboard.
      vm_compute. reflexivity.
Defined.

(** Claim C2 (a finished game in the random playout), evaluated. On
    [Positions.white_won] White has five in a row; [random_simulation]
    for Black does not return at once: it draws a random move, plays it on
    the board it was given (point 35) and recurses on a copy, consuming a
    draw of the generator and allocating two objects, before it returns
    false. *)
Theorem random_simulation_plays_on_after_loss :
  GoBoard.check_game_end_gomoku Positions.white_won = (true, Some WHITE) /\
  exists w',
    random_simulation GoBoard.the_oracle 3 0 BLACK BLACK
      (GoBoard.world_of Positions.white_won [0; 0]) = Ok false w' /\
    heap w' 0 = GoBoard.play_move_gomoku Positions.white_won (Pt 35) BLACK /\
    heap w' 0 <> Positions.white_won /\
    next w' = 3 /\ rng w' = [0].
Proof.
  split; [vm_compute; reflexivity |].
  eexists. split; [vm_compute; reflexivity |].
  split; [vm_compute; reflexivity |].
  split; [| split; reflexivity].
  vm_compute. discriminate.
Qed.

(** Claim C1 (start position of the random policy's playouts),
    evaluated. The [wins] computed for a candidate do not depend on the
    candidate. On [Positions.two_left], playing point 11 wins for Black;
    playouts that start from a duplicate with 11 played count 10 wins out
    of 10, while the code, whose playouts start from the plain duplicate
    of the root, counts 0 with the same draws. *)
Theorem random_policy_ignores_candidate :
  (forall (Board Rng : Type) (O : oracle Board Rng) fuel self_board c mv mv'
          (w : world Board Rng),
     random_candidate O fuel self_board c mv w
     = random_candidate O fuel self_board c mv' w) /\
  GoBoard.check_game_end_gomoku
    (GoBoard.play_move_gomoku Positions.two_left (Pt 11) BLACK) = (true, Some BLACK) /\
  (exists w', spec_random_candidate GoBoard.the_oracle 3 0 BLACK (Pt 11)
                (GoBoard.world_of Positions.two_left (repeat 1 20)) = Ok 10%Q w') /\
  (exists w', random_candidate GoBoard.the_oracle 3 0 BLACK (Pt 11)
                (GoBoard.world_of Positions.two_left (repeat 1 20)) = Ok 0%Q w').
Proof.
  split; [reflexivity |].
  split; [vm_compute; reflexivity |].
  split; eexists; vm_compute; reflexivity.
Qed.

(** * Further properties of the engine *)
Section EngineMore.

Context {Board Rng : Type}.
Variable O : oracle Board Rng.

(** X1. [check_block_win] always returns: the [undo] of every round finds
    the snapshot its [save] pushed. It returns the classification of the
    board it was given, for [color] or, when [color] is omitted, for
    [board.current_player]. It changes no board object that existed,
    leaves [STACK] as it found it and draws no random number. *)
Theorem check_block_win_no_side_effect (w : world Board Rng) board color0 :
  board < next w ->
  exists w',
    check_block_win O board color0 w
      = Ok (classify O (heap w board)
              (color_or_default O (heap w board) color0)) w' /\
    (forall x, x < next w -> heap w' x = heap w x) /\
    STACK w' = STACK w /\ rng w' = rng w /\ next w <= next w'.
Proof.
  intros Hb.
  destruct (check_block_win_reads O board color0 w Hb)
    as (w' & Hrun & (Hn & Hs & Hh) & Hrng).
  exists w'. split; [exact Hrun |]. auto.
Qed.

Lemma app_one_not_nil {A} (l : list A) x : (l ++ [x])%list <> [].
Proof. destruct l; discriminate. Qed.

Lemma step_candidate_backed bc c b1 b2 b3 mv s :
  flags_backed s -> flags_backed (step_candidate O bc c b1 b2 b3 mv s).
Proof.
  destruct s as [wm bm om bom fw fb fo fbo].
  intros (H1 & H2 & H3 & H4). cbn in *.
  unfold step_candidate, step_block_open_four, step_open_four,
    step_block_win, step_win, flags_backed.
  destruct (fst (check_game_end_gomoku O bc)); cbn;
    [| destruct fw; cbn;
       [| destruct (check_block_win_gomoku O bc c <? b1)%Z; cbn;
          [| destruct fb; cbn;
             [| destruct (b2 <? check_open_four_gomoku O bc c)%Z; cbn;
                [| destruct fo; cbn;
                   [| destruct (check_block_open_four_gomoku O bc c <? b3)%Z;
                      cbn]]]]]];
    repeat split; intros H; auto using app_one_not_nil; discriminate.
Qed.

Lemma scan_moves_backed b c b1 b2 b3 moves :
  forall s, flags_backed s -> flags_backed (scan_moves O b c b1 b2 b3 moves s).
Proof.
  induction moves as [| mv rest IH]; intros s Hs; cbn; [exact Hs |].
  apply IH. now apply step_candidate_backed.
Qed.

Lemma classify_empty b c :
  snd (classify O b c) = [] <-> generate_legal_moves_gomoku O b = [].
Proof.
  unfold classify, check_block_win_result, scan_board.
  set (moves := generate_legal_moves_gomoku O b).
  assert (Hinit : flags_backed scan_init)
    by (repeat split; intros H; discriminate H).
  destruct (scan_moves_backed b c (check_block_win_gomoku O b c)
              (check_open_four_gomoku O b c)
              (check_block_open_four_gomoku O b c) moves scan_init Hinit)
    as (H1 & H2 & H3 & H4).
  split.
  - destruct (found_win _) eqn:E1; cbn; [intros H; now apply H1 in H |].
    destruct (found_block_win _) eqn:E2; cbn; [intros H; now apply H2 in H |].
    destruct (found_open_four _) eqn:E3; cbn; [intros H; now apply H3 in H |].
    destruct (found_block_open_four _) eqn:E4; cbn;
      [intros H; now apply H4 in H | auto].
  - intros Hnil. rewrite Hnil. reflexivity.
Qed.

(** X2. The list [check_block_win] returns holds legal moves only, and it
    is empty exactly when the board has no legal move; the category is
    one of the five names, and with category Random the list is the list
    of all legal moves. *)
Theorem check_block_win_returns_legal (w : world Board Rng) board color0
    category moves w' :
  board < next w ->
  check_block_win O board color0 w = Ok (category, moves) w' ->
  (forall mv, In mv moves ->
     In mv (generate_legal_moves_gomoku O (heap w board))) /\
  (moves = [] <-> generate_legal_moves_gomoku O (heap w board) = []) /\
  In category ["Win"; "BlockWin"; "OpenFour"; "BlockOpenFour"; "Random"] /\
  (category = "Random" ->
   moves = generate_legal_moves_gomoku O (heap w board)).
Proof.
  intros Hb Hrun.
  destruct (check_block_win_reads O board color0 w Hb) as (w2 & Hrun2 & _ & _).
  rewrite Hrun2 in Hrun. injection Hrun as Hcl _.
  fold (classify O (heap w board)
          (color_or_default O (heap w board) color0)) in Hcl.
  set (c := color_or_default O (heap w board) color0) in *.
  assert (Hm : moves = snd (classify O (heap w board) c)) by now rewrite Hcl.
  assert (Hc : category = fst (classify O (heap w board) c)) by now rewrite Hcl.
  split; [| split; [| split]].
  - intros mv Hin. rewrite Hm in Hin. eapply classify_incl; eauto.
  - rewrite Hm. apply classify_empty.
  - rewrite Hc. unfold classify, check_block_win_result.
    repeat match goal with
           | |- context [if ?t then _ else _] => destruct t
           end; cbn; auto 10.
  - rewrite Hc, Hm. unfold classify, check_block_win_result.
    repeat match goal with
           | |- context [if ?t then _ else _] => destruct t
           end; cbn; intros H; try discriminate H; reflexivity.
Qed.

(** X3. The evaluation of [genmove_cmd], under either policy, works on
    duplicates only: when it has selected, every board object that existed
    before, [self.board] among them, holds the board it held, and [STACK]
    is as it was found. *)
Theorem genmove_cmd_leaves_objects fuel POLICY (w : world Board Rng)
    self_board c r w' :
  genmove_cmd O fuel POLICY self_board c w = Ok r w' ->
  (forall x, x < next w -> heap w' x = heap w x) /\
  STACK w' = STACK w /\ next w <= next w'.
Proof.
  intros H. unfold genmove_cmd in H.
  apply bind_Ok in H. destruct H as (ge & w0 & Hge & H).
  injection Hge as <- <-.
  destruct (fst (check_game_end_gomoku O (heap w self_board))).
  { injection H as _ <-. auto. }
  apply bind_Ok in H. destruct H as (ms & w0 & Hms & H).
  injection Hms as <- <-.
  apply bind_Ok in H. destruct H as (br & w1 & Hloop & H).
  injection H as _ <-.
  assert (Hfr : frame w w1).
  { destruct POLICY.
    - rewrite genmove_random_loop_select in Hloop.
      apply bind_Ok in Hloop. destruct Hloop as (wins & w2 & Heval & Hsel).
      injection Hsel as _ <-.
      eapply eval_candidates_frame; [| exact Heval].
      intros mv x v x'. apply random_candidate_frame.
    - rewrite genmove_rules_loop_select in Hloop.
      apply bind_Ok in Hloop. destruct Hloop as (wins & w2 & Heval & Hsel).
      injection Hsel as _ <-.
      eapply eval_candidates_frame; [| exact Heval].
      intros mv x v x'. apply rules_candidate_frame. }
  destruct Hfr as (Hn & Hs & Hh). auto.
Qed.

End EngineMore.

Section EngineMore2.

Context {Board Rng : Type}.
Variable O : oracle Board Rng.

Lemma random_playouts_bounds fuel self_board c n :
  forall wins (w : world Board Rng) v w',
    random_playouts O fuel n self_board c wins w = Ok v w' ->
    (wins <= v <= wins + Z.of_nat n)%Z.
Proof.
  induction n as [| n IH]; intros wins w v w' H; cbn [random_playouts] in H.
  - injection H as <- _. lia.
  - unfold bind in H. cbn [copy] in H.
    destruct (random_simulation O fuel _ c c _) as [r w1 | |];
      try discriminate.
    apply IH in H. destruct r; lia.
Qed.

Lemma rules_playouts_bounds fuel temp_board c n :
  forall wins (w : world Board Rng) v w',
    rules_playouts O fuel n temp_board c wins w = Ok v w' ->
    (wins <= v <= wins + inject_Z (Z.of_nat n))%Q.
Proof.
  induction n as [| n IH]; intros wins w v w' H; cbn [rules_playouts] in H.
  - injection H as <- _. cbn. rewrite Qplus_0_r. split; apply Qle_refl.
  - unfold bind in H. cbn [copy] in H.
    destruct (rules_simulation O fuel _ c _ _) as [r w1 | |] eqn:Hr;
      try discriminate.
    apply IH in H. apply rules_simulation_score in Hr.
    destruct H as (Hlo & Hhi).
    assert (Hr01 : (0 <= r <= 1)%Q).
    { destruct Hr as [-> | [-> | ->]]; split; discriminate. }
    destruct Hr01 as (Hr0 & Hr1).
    rewrite Nat2Z.inj_succ. unfold Z.succ. rewrite inject_Z_plus.
    set (k := inject_Z (Z.of_nat n)) in *.
    change (inject_Z 1) with 1%Q. split; lra.
Qed.

(** X4. Under either policy the [wins] of a candidate lie between 0 and
    10, so every ratio [wins/10] that [genmove_cmd] compares lies between
    0 and 1. *)
Theorem genmove_cmd_wins_bounds fuel POLICY (w : world Board Rng)
    self_board c mv wins w' :
  match POLICY with
  | policy_random => random_candidate O fuel self_board c mv w
  | policy_rule_based => rules_candidate O fuel self_board c mv w
  end = Ok wins w' ->
  (0 <= wins <= 10)%Q /\ (0 <= ratio_of wins <= 1)%Q.
Proof.
  intros H.
  assert (Hw : (0 <= wins <= 10)%Q).
  { destruct POLICY.
    - unfold random_candidate in H. apply bind_Ok in H.
      destruct H as (z & w1 & Hz & H). injection H as <- _.
      apply random_playouts_bounds in Hz. cbn in Hz.
      split.
      + change 0%Q with (inject_Z 0). rewrite <- Zle_Qle. lia.
      + change 10%Q with (inject_Z 10). rewrite <- Zle_Qle. lia.
    - unfold rules_candidate, bind in H. cbn [copy play] in H.
      apply rules_playouts_bounds in H. cbn in H.
      destruct H as (Hlo & Hhi). split; [exact Hlo |].
      eapply Qle_trans; [exact Hhi |]. discriminate. }
  split; [exact Hw |]. destruct Hw as (Hlo & Hhi). unfold ratio_of. split.
  - apply Qle_shift_div_l; [reflexivity |]. now rewrite Qmult_0_l.
  - apply Qle_shift_div_r; [reflexivity |]. now rewrite Qmult_1_l.
Qed.

(** The score [rules_simulation] returns is the one read on the board. *)
Lemma rules_simulation_value fuel :
  forall board oc c (w : world Board Rng) v w',
    board < next w ->
    rules_simulation O fuel board oc c w = Ok v w' ->
    rules_value O fuel (heap w board) oc c = Some v.
Proof.
  induction fuel as [| fuel IH]; intros board oc c w v w' Hb H; [discriminate |].
  cbn [rules_value]. cbv zeta.
  destruct (fst (check_game_end_gomoku O (heap w board))) eqn:Hend.
  - rewrite rules_simulation_terminal in H by assumption.
    injection H as <- _. reflexivity.
  - destruct (rules_simulation_step O fuel board oc c w Hend)
      as (w2 & (Hn & Hs & Hh) & _ & Hrun).
    rewrite Hrun in H. clear Hrun.
    destruct (List.rev (snd (classify O (heap w board) c))) as [| mv rest].
    + injection H as <- _. reflexivity.
    + destruct (is_PASS mv).
      * injection H as <- _. reflexivity.
      * apply IH in H; [| cbn; lia].
        cbn in H. rewrite upd_eq, Hh in H by assumption. exact H.
Qed.

Lemma rules_playouts_value fuel temp_board c n :
  forall wins (w : world Board Rng) v w',
    temp_board < next w ->
    rules_playouts O fuel (S n) temp_board c wins w = Ok v w' ->
    exists val,
      rules_value O fuel (heap w temp_board) c (opponent O c) = Some val /\
      (v == wins + inject_Z (Z.of_nat (S n)) * val)%Q.
Proof.
  induction n as [| n IH]; intros wins w v w' Hb H;
    cbn [rules_playouts] in H; unfold bind at 1 in H; cbn [copy] in H;
    unfold bind at 1 in H;
    destruct (rules_simulation O fuel (next w) c (opponent O c) _)
      as [r w1 | |] eqn:Hr; try discriminate.
  - injection H as <- _.
    apply rules_simulation_value in Hr; [| cbn; lia].
    cbn in Hr. rewrite upd_eq in Hr. exists r. split; [exact Hr |].
    cbn. rewrite Qmult_1_l. reflexivity.
  - pose proof Hr as Hfr. apply rules_simulation_frame in Hfr; [| cbn; lia].
    destruct Hfr as ((Hn & Hs & Hh) & _). cbn in Hn.
    apply rules_simulation_value in Hr; [| cbn; lia].
    cbn in Hr. rewrite upd_eq in Hr.
    apply IH in H; [| lia].
    destruct H as (val & Hval & Hv).
    rewrite Hh in Hval by (cbn; lia). cbn in Hval.
    rewrite upd_lt in Hval by lia.
    rewrite Hr in Hval. injection Hval as <-.
    exists r. split; [exact Hr |]. rewrite Hv.
    rewrite (Nat2Z.inj_succ (S n)). unfold Z.succ. rewrite inject_Z_plus.
    ring.
Qed.

(** X5. The rule-guided playout draws nothing at random: the ten playouts
    that the rule-based policy runs for a candidate all return the score
    read on the board after the candidate, with the opponent to move, so
    [wins] is ten times that one score. *)
Theorem rules_candidate_ten_equal_playouts fuel (w : world Board Rng)
    self_board c mv wins w' :
  self_board < next w ->
  rules_candidate O fuel self_board c mv w = Ok wins w' ->
  exists score,
    rules_value O fuel (play_move_gomoku O (heap w self_board) mv c)
      c (opponent O c) = Some score /\
    (wins == 10 * score)%Q /\ rng w' = rng w.
Proof.
  intros Hb H. unfold rules_candidate, bind in H. cbn [copy play] in H.
  cbn [heap next STACK rng] in H.
  pose proof H as Hval. apply rules_playouts_value in Hval; [| cbn; lia].
  destruct Hval as (score & Hscore & Hv).
  cbn in Hscore. rewrite upd_eq, upd_eq in Hscore.
  exists score. split; [exact Hscore |]. split.
  - rewrite Hv. cbn. ring.
  - clear Hv Hscore.
    revert H. generalize 10 at 1. generalize 0%Q.
    set (w1 := World _ _ _ _).
    assert (Hrng : rng w1 = rng w) by reflexivity.
    clearbody w1. revert w1 Hrng.
    intros w1 Hrng q n. revert q w1 Hrng.
    induction n as [| n IH]; intros q w1 Hrng H; cbn [rules_playouts] in H.
    + injection H as _ <-. exact Hrng.
    + unfold bind in H. cbn [copy] in H.
      destruct (rules_simulation O fuel (next w1) c (opponent O c) _)
        as [r w2 | |] eqn:Hr; try discriminate.
      apply rules_simulation_frame in Hr; [| cbn; lia].
      destruct Hr as (_ & Hr). cbn in Hr.
      eapply IH; [| exact H]. congruence.
Qed.

End EngineMore2.

(** * Further properties of the scored-evaluation player *)
Module Gomoku3More.

Section PlayerMore.

Context {State : Type}.
Variable P : Gomoku3.state_ops State.
Variable self : gmap string (Gomoku3.attr State).
Variable globals : gmap string color.

Lemma getattr_returns name (st : State) :
  (exists a, Gomoku3.getattr self name st = Ok a st) \/
  (exists e, Gomoku3.getattr self name st = Raise e st).
Proof.
  unfold Gomoku3.getattr. destruct (self !! name); [left | right]; eauto.
Qed.

Lemma getattr_int_returns name (st : State) :
  (exists z, Gomoku3.getattr_int self name st = Ok z st) \/
  (exists e, Gomoku3.getattr_int self name st = Raise e st).
Proof.
  unfold Gomoku3.getattr_int, bind.
  destruct (getattr_returns name st) as [(a & ->) | (e & ->)]; [| eauto].
  destruct a; [left | right | right | right]; eauto.
Qed.


Lemma simulate_loop_returns n moveNr :
  forall stats (st : State),
    (exists stats' st', Gomoku3.simulate_loop P n moveNr stats st
                        = Ok stats' st') \/
    (exists e st', Gomoku3.simulate_loop P n moveNr stats st = Raise e st').
Proof.
  induction n as [| n IH]; intros stats st; cbn [Gomoku3.simulate_loop].
  - left. eexists _, _. reflexivity.
  - unfold bind. destruct (Gomoku3.state_simulate P st) as [winner s1].
    unfold Gomoku3.increment, Gomoku3.index, bind.
    destruct (stats !! color_code winner); [| right; eauto].
    cbn. apply IH.
Qed.


Lemma getattr_int_raise_kind name (st : State) e st' :
  Gomoku3.getattr_int self name st = Raise e st' ->
  e = AttributeError name \/ e = TypeError.
Proof.
  unfold Gomoku3.getattr_int, Gomoku3.getattr, bind.
  destruct (self !! name) as [a |]; cbn.
  - destruct a; cbn; intros H; try discriminate H;
      injection H as <- _; now right.
  - intros H. injection H as <- _. now left.
Qed.

Lemma simulate_loop_raise_kind n moveNr :
  forall stats (st : State) e st',
    Gomoku3.simulate_loop P n moveNr stats st = Raise e st' ->
    e = IndexError.
Proof.
  induction n as [| n IH]; intros stats st e st' H;
    cbn [Gomoku3.simulate_loop] in H; [discriminate |].
  unfold bind in H. destruct (Gomoku3.state_simulate P st) as [winner s1].
  unfold Gomoku3.increment, Gomoku3.index, bind in H.
  destruct (stats !! color_code winner).
  - cbn in H. eapply IH, H.
  - cbn in H. now injection H as <- _.
Qed.

(** X6. In the module as written [simulate] never returns a value,
    whatever attributes a caller gives the instance: it raises
    AttributeError or TypeError on [numSimulations], IndexError on the
    tally, AssertionError on one of the two asserts, or at the latest
    NameError on BLACK, a name the module binds nowhere. *)
Theorem simulate_never_returns mv (st : State) :
  exists e st1,
    Gomoku3.simulate P self Gomoku3.module_globals mv st = Raise e st1 /\
    In e [AttributeError "numSimulations"; TypeError; IndexError;
          AssertionError; NameError "BLACK"].
Proof.
  unfold Gomoku3.simulate. unfold bind at 1. cbn beta.
  unfold bind at 1. cbn beta. unfold bind at 1.
  destruct (Gomoku3.getattr_int self "numSimulations" (Gomoku3.play P st mv))
    as [n s3 | e s3 |] eqn:H3.
  2:{ apply getattr_int_raise_kind in H3.
      exists e, s3. split; [reflexivity |].
      destruct H3 as [-> | ->]; cbn; auto 10. }
  2:{ destruct (getattr_int_returns "numSimulations" (Gomoku3.play P st mv))
        as [(z & Hz) | (e & He)]; congruence. }
  unfold bind at 1.
  destruct (Gomoku3.simulate_loop P (Z.to_nat n)
              (Gomoku3.moveNumber P (Gomoku3.play P st mv)) [0; 0; 0]%Z s3)
    as [stats s4 | e s4 |] eqn:H4.
  2:{ apply simulate_loop_raise_kind in H4. subst e.
      exists IndexError, s4. split; [reflexivity |]. cbn. auto 10. }
  2:{ destruct (simulate_loop_returns (Z.to_nat n)
                  (Gomoku3.moveNumber P (Gomoku3.play P st mv)) [0; 0; 0]%Z s3)
        as [(x & y & Hz) | (e & y & He)]; congruence. }
  unfold bind at 1.
  destruct (Gomoku3.getattr_int self "numSimulations" s4)
    as [n1 s5 | e s5 |] eqn:H5.
  2:{ apply getattr_int_raise_kind in H5.
      exists e, s5. split; [reflexivity |].
      destruct H5 as [-> | ->]; cbn; auto 10. }
  2:{ destruct (getattr_int_returns "numSimulations" s4)
        as [(z & Hz) | (e & He)]; congruence. }
  unfold bind at 1. unfold Gomoku3.assert at 1.
  destruct (Gomoku3.sum stats =? n1)%Z.
  2:{ eexists _, _. split; [reflexivity |]. cbn. auto 10. }
  unfold ret at 1. unfold bind at 1. cbn beta.
  unfold bind at 1. unfold Gomoku3.assert at 1.
  destruct (_ =? _)%Z.
  2:{ eexists _, _. split; [reflexivity |]. cbn. auto 10. }
  unfold ret at 1. unfold bind at 1. cbn beta.
  unfold bind at 1. eexists _, _. split; [reflexivity |]. cbn. auto 10.
Qed.



(** X7. When the board has no legal move and the game is not reported as
    ended, [genmove] raises ValueError (the maximum of an empty score
    list) and leaves the position as it was. *)
Theorem genmove_no_moves (st : State) truth :
  self !! "check_game_end_gomoku" = Some (Gomoku3.ACallable truth) ->
  truth st = false ->
  self !! "board" = Some Gomoku3.ABoard ->
  Gomoku3.generate_legal_moves_gomoku P st = [] ->
  Gomoku3.genmove P self globals st = Raise ValueError st.
Proof.
  intros Hc Ht Hb Hm. unfold Gomoku3.genmove, bind, Gomoku3.getattr_board,
    Gomoku3.getattr, bind. rewrite Hc, Hb. cbn. rewrite Ht. cbn.
  rewrite Hm. reflexivity.
Qed.

End PlayerMore.

End Gomoku3More.

(** * Properties of the protocol helpers *)
Module ProtocolTheory.

Import Protocol.

Lemma str_index_0 {W} (s : string) (w : W) :
  str_index s 0 w =
  match s with
  | EmptyString => Raise IndexError w
  | String c _ => Ok c w
  end.
Proof. destruct s; reflexivity. Qed.

(** X9. [move_to_coord] raises nothing but ValueError, answers PASS only
    for a string that reads pass in lower case, and otherwise returns a
    pair whose row and column lie in 1 .. board_size, for a board size of
    at most MAXSIZE and a column of at most 25. *)
Theorem move_to_coord_range {W} MAXSIZE int point_str board_size (w : W) :
  match move_to_coord MAXSIZE int point_str board_size w with
  | Ok CPASS w' => lower point_str = "pass" /\ w' = w
  | Ok (CPair row col) w' =>
      (1 <= row <= board_size)%Z /\ (1 <= col <= board_size)%Z /\
      (col <= 25)%Z /\ (2 <= board_size <= MAXSIZE)%Z /\ w' = w
  | Raise e w' => e = ValueError /\ w' = w
  | OutOfFuel => False
  end.
Proof.
  unfold move_to_coord.
  destruct ((2 <=? board_size)%Z && (board_size <=? MAXSIZE)%Z) eqn:Hbs;
    cbn [negb]; [| cbn; auto].
  apply andb_true_iff in Hbs. destruct Hbs as (Hb1 & Hb2).
  apply Z.leb_le in Hb1, Hb2.
  destruct (String.eqb (lower point_str) "pass") eqn:Hpass.
  { apply String.eqb_eq in Hpass. cbn. auto. }
  unfold move_to_coord_try, bind. rewrite str_index_0.
  destruct (lower point_str) as [| c rest]; [auto |].
  destruct ((ord "a" <=? ord c)%Z && (ord c <=? ord "z")%Z) eqn:Hr;
    cbn [negb orb]; [| cbn; auto].
  apply andb_true_iff in Hr. destruct Hr as (Hr1 & Hr2).
  apply Z.leb_le in Hr1, Hr2.
  destruct (ord c =? ord "i")%Z eqn:Hi; [cbn; auto |].
  apply Z.eqb_neq in Hi. cbn [from_1].
  destruct (int rest) as [row |]; [| cbn; auto].
  destruct (row <? 1)%Z eqn:Hrow; [cbn; auto |].
  apply Z.ltb_ge in Hrow. unfold ret.
  match goal with
  | |- context [negb (?a && ?b)] => destruct (a && b) eqn:Hin
  end; cbn [negb]; [| auto].
  apply andb_true_iff in Hin. destruct Hin as (Hc & Hrw).
  apply Z.leb_le in Hc, Hrw.
  change (ord "a") with 97%Z in *. change (ord "z") with 122%Z in *.
  change (ord "i") with 105%Z in *.
  destruct (ord c <? 105)%Z eqn:Hlt;
    [apply Z.ltb_lt in Hlt | apply Z.ltb_ge in Hlt];
    repeat split; lia.
Qed.

Lemma lower_uint (d : Decimal.uint) :
  lower (NilEmpty.string_of_uint d) = NilEmpty.string_of_uint d.
Proof. induction d; cbn [NilEmpty.string_of_uint lower]; now f_equal. Qed.

Lemma lower_str (p : positive) : lower (str (Zpos p)) = str (Zpos p).
Proof.
  unfold str. cbn [Z.to_int NilZero.string_of_int].
  unfold NilZero.string_of_uint.
  destruct (Pos.to_uint p); try apply lower_uint; reflexivity.
Qed.

Lemma str_not_ass (p : positive) : String.eqb (str (Zpos p)) "ass" = false.
Proof.
  unfold str. cbn [Z.to_int NilZero.string_of_int].
  unfold NilZero.string_of_uint.
  destruct (Pos.to_uint p); reflexivity.
Qed.

Ltac eval_closed :=
  repeat match goal with
    | |- context [lower_char ?c] =>
        let x := eval vm_compute in (lower_char c) in
        change (lower_char c) with x
    | |- context [ord ?c] =>
        let x := eval vm_compute in (ord c) in change (ord c) with x
    | |- context [Z.of_nat ?k] =>
        let x := eval vm_compute in (Z.of_nat k) in
        change (Z.of_nat k) with x
    | |- context [(Zpos ?a - Zpos ?b)%Z] =>
        let x := eval vm_compute in (Zpos a - Zpos b)%Z in
        change (Zpos a - Zpos b)%Z with x
    | |- context [(0 + 1)%Z] => change (0 + 1)%Z with 1%Z
    | |- context [(Zpos ?a + 1)%Z] =>
        let x := eval vm_compute in (Zpos a + 1)%Z in
        change (Zpos a + 1)%Z with x
    end.

Ltac round_trip_case Hlow Hass Hint Hr1 Hin :=
  eexists; split; [reflexivity |];
  cbn [lower]; rewrite Hlow; eval_closed;
  match goal with
  | |- context [String.eqb ?a ?b] =>
      assert (String.eqb a b = false) as ->
        by (cbn -[str]; rewrite ?Hass; reflexivity)
  end;
  cbn beta; unfold move_to_coord_try, bind; rewrite str_index_0;
  cbn [from_1]; rewrite Hint, Hr1; eval_closed;
  cbn -[str]; eval_closed;
  revert Hin; eval_closed; intros Hin; rewrite Hin; reflexivity.

(** X10. A pair that [format_point] accepts on a board of the given size
    comes back from [move_to_coord]: the letter skips I the way the column
    arithmetic of [move_to_coord] does. [int] has to read the decimal
    string of the row as that row. *)
Theorem format_point_move_to_coord {W} MAXSIZE int row col board_size
    (w : W) :
  (2 <= board_size <= MAXSIZE)%Z ->
  (1 <= row <= board_size)%Z -> (1 <= col <= board_size)%Z ->
  (row < MAXSIZE)%Z -> (col < MAXSIZE)%Z -> (col <= 25)%Z ->
  int (str row) = Some row ->
  exists s,
    format_point MAXSIZE (CPair row col) w = Ok s w /\
    move_to_coord MAXSIZE int s board_size w = Ok (CPair row col) w.
Proof.
  intros Hbs Hrow Hcol HrM HcM H25 Hint.
  assert (Hchk : negb ((0 <=? row)%Z && (row <? MAXSIZE)%Z)
                 || negb ((0 <=? col)%Z && (col <? MAXSIZE)%Z) = false).
  { assert ((0 <=? row)%Z = true) as -> by (apply Z.leb_le; lia).
    assert ((row <? MAXSIZE)%Z = true) as -> by (apply Z.ltb_lt; lia).
    assert ((0 <=? col)%Z = true) as -> by (apply Z.leb_le; lia).
    assert ((col <? MAXSIZE)%Z = true) as -> by (apply Z.ltb_lt; lia).
    reflexivity. }
  assert (Hbsb : negb ((2 <=? board_size)%Z && (board_size <=? MAXSIZE)%Z)
                 = false).
  { assert ((2 <=? board_size)%Z = true) as -> by (apply Z.leb_le; lia).
    assert ((board_size <=? MAXSIZE)%Z = true) as -> by (apply Z.leb_le; lia).
    reflexivity. }
  assert (Hin : negb ((col <=? board_size)%Z && (row <=? board_size)%Z)
                = false).
  { assert ((col <=? board_size)%Z = true) as -> by (apply Z.leb_le; lia).
    assert ((row <=? board_size)%Z = true) as -> by (apply Z.leb_le; lia).
    reflexivity. }
  assert (Hr1 : (row <? 1)%Z = false) by (apply Z.ltb_ge; lia).
  destruct row as [| p | p]; try lia.
  pose proof (lower_str p) as Hlow. pose proof (str_not_ass p) as Hass.
  unfold format_point, move_to_coord. rewrite Hchk, Hbsb.
  assert (Hn : exists n, col = Z.of_nat n /\ 1 <= n <= 25)
    by (exists (Z.to_nat col); lia).
  destruct Hn as (n & -> & Hn1 & Hn2).
  destruct n as [| n]; [lia |].
  do 25 (destruct n as [| n]; [round_trip_case Hlow Hass Hint Hr1 Hin |]).
  lia.
Qed.

(** X11. On a board of non-negative size [point_to_coord] splits a point
    into the row and the column of the padded board: it returns (row, col)
    exactly when the point is row * (size + 1) + col with col between 0
    and size. *)
Theorem point_to_coord_decomposes {W} p boardsize row col (w : W) :
  (0 <= boardsize)%Z ->
  point_to_coord (Pt p) boardsize w = Ok (CPair row col) w <->
  (Z.of_nat p = row * (boardsize + 1) + col)%Z /\ (0 <= col <= boardsize)%Z.
Proof.
  intros Hs. unfold point_to_coord.
  destruct (boardsize + 1 =? 0)%Z eqn:Hz; [apply Z.eqb_eq in Hz; lia |].
  unfold ret. split.
  - intros H. injection H as <- <-.
    pose proof (Z.div_mod (Z.of_nat p) (boardsize + 1) ltac:(lia)).
    pose proof (Z.mod_pos_bound (Z.of_nat p) (boardsize + 1) ltac:(lia)).
    split; lia.
  - intros (Hp & Hc).
    rewrite <- (Z.div_unique_pos (Z.of_nat p) (boardsize + 1) row col)
      by lia.
    rewrite <- (Z.mod_unique_pos (Z.of_nat p) (boardsize + 1) row col)
      by lia.
    reflexivity.
Qed.

(** X13. Whatever policy commands a session runs, [POLICY] names one of
    the two policies, so the test of [genmove_cmd] always takes a
    branch. *)
Theorem POLICY_always_known p :
  POLICY_reachable p -> exists q, policy_of_string p = Some q.
Proof.
  induction 1 as [| args p r p' _ IH Hcmd].
  - now exists policy_random.
  - unfold policy_cmd in Hcmd. destruct args as [| a rest]; [discriminate |].
    destruct (String.eqb a "random") eqn:E1.
    + cbn in Hcmd. injection Hcmd as _ <-.
      unfold policy_of_string. rewrite E1. eauto.
    + destruct (String.eqb a "rule_based") eqn:E2; cbn in Hcmd.
      * injection Hcmd as _ <-. unfold policy_of_string.
        rewrite E1, E2. eauto.
      * injection Hcmd as _ <-. exact IH.
Qed.

End ProtocolTheory.

Module FormatPoint.

Import Protocol.

Lemma column_letters_end n :
  25 <= n -> String.get n column_letters = None.
Proof.
  intros H. do 25 (destruct n as [| n]; [lia |]). reflexivity.
Qed.

(** X14. [format_point] returns for a pair exactly when the row and the
    column are at least 0 and below MAXSIZE and the column is at most 25:
    a row or column equal to MAXSIZE is refused, although [move_to_coord]
    accepts it on a board of that size, and column 0 is accepted (it reads
    the last letter). Otherwise it raises ValueError, or IndexError beyond
    the letters. *)
Theorem format_point_defined {W} MAXSIZE row col (w : W) :
  (exists s, format_point MAXSIZE (CPair row col) w = Ok s w) <->
  (0 <= row < MAXSIZE)%Z /\ (0 <= col < MAXSIZE)%Z /\ (col <= 25)%Z.
Proof.
  unfold format_point.
  destruct ((0 <=? row)%Z && (row <? MAXSIZE)%Z) eqn:Hr; cbn [negb orb].
  2:{ split; [intros (s & H); discriminate H |].
      intros (H & _). apply andb_false_iff in Hr.
      destruct Hr as [Hr | Hr];
        [apply Z.leb_gt in Hr | apply Z.ltb_ge in Hr]; lia. }
  apply andb_true_iff in Hr. destruct Hr as (Hr1 & Hr2).
  apply Z.leb_le in Hr1. apply Z.ltb_lt in Hr2.
  destruct ((0 <=? col)%Z && (col <? MAXSIZE)%Z) eqn:Hc; cbn [negb].
  2:{ split; [intros (s & H); discriminate H |].
      intros (_ & H & _). apply andb_false_iff in Hc.
      destruct Hc as [Hc | Hc];
        [apply Z.leb_gt in Hc | apply Z.ltb_ge in Hc]; lia. }
  apply andb_true_iff in Hc. destruct Hc as (Hc1 & Hc2).
  apply Z.leb_le in Hc1. apply Z.ltb_lt in Hc2.
  unfold bind, str_index.
  change (Z.of_nat (String.length column_letters)) with 25%Z.
  split.
  - intros (s & H). split; [lia |]. split; [lia |].
    destruct (col - 1 <? 0)%Z eqn:Hneg; [lia |].
    apply Z.ltb_ge in Hneg.
    assert ((col - 1 <? 0)%Z = false) as Hn by (apply Z.ltb_ge; lia).
    rewrite Hn in H.
    destruct (Z.le_gt_cases col 25) as [Hle | Hgt]; [exact Hle |].
    rewrite column_letters_end in H by lia. discriminate H.
  - intros (_ & _ & H25).
    assert (Hn : exists n, col = Z.of_nat n /\ n <= 25)
      by (exists (Z.to_nat col); lia).
    destruct Hn as (n & -> & Hn).
    do 26 (destruct n as [| n]; [eexists; reflexivity |]). lia.
Qed.

End FormatPoint.

Module PolicyMovesTheory.

Import Protocol.

Lemma sort_insert_length x l :
  List.length (sort_insert x l) = S (List.length l).
Proof.
  induction l as [| y rest IH]; cbn; [reflexivity |].
  destruct (String.leb x y); cbn; now rewrite ?IH.
Qed.

Lemma sort_length l : List.length (sort l) = List.length l.
Proof.
  induction l as [| x rest IH]; [reflexivity |].
  unfold sort in *. cbn [fold_right List.length].
  now rewrite sort_insert_length, IH.
Qed.

Lemma string_app_cons ch (a b : string) :
  (String ch a ++ b = String ch (a ++ b))%string.
Proof. reflexivity. Qed.

Lemma string_app_nil_l (b : string) : ("" ++ b = b)%string.
Proof. reflexivity. Qed.

Lemma string_app_nil_r (a : string) : (a ++ "" = a)%string.
Proof.
  induction a as [| ch a IH]; [reflexivity |].
  now rewrite string_app_cons, IH.
Qed.

Lemma string_app_assoc (a b c : string) :
  ((a ++ b) ++ c = a ++ (b ++ c))%string.
Proof.
  induction a as [| ch a IH]; [reflexivity |].
  now rewrite !string_app_cons, IH.
Qed.

Lemma string_app_length (a b : string) :
  String.length (a ++ b) = String.length a + String.length b.
Proof.
  induction a as [| ch a IH]; [reflexivity |].
  rewrite string_app_cons. cbn [String.length]. now rewrite IH.
Qed.

(** The response before the Random test: the category, then a space and a
    move string for every move. *)
Lemma returnstring_shape (l : list string) :
  forall acc,
  exists t,
    fold_left (fun acc move_string => acc ++ (" " ++ move_string))%string
      l acc = (acc ++ t)%string /\
    List.length l <= String.length t.
Proof.
  induction l as [| x rest IH]; intros acc; cbn [fold_left].
  - exists ""%string. split; [| cbn; lia].
    now rewrite string_app_nil_r.
  - destruct (IH (acc ++ (" " ++ x))%string) as (t & Ht & Hlen).
    exists ((" " ++ x) ++ t)%string. split.
    + rewrite Ht. apply string_app_assoc.
    + rewrite string_app_length, string_app_cons.
      cbn [String.length List.length]. lia.
Qed.

Lemma sort_insert_permutation x l : Permutation (sort_insert x l) (x :: l).
Proof.
  induction l as [| y rest IH]; cbn [sort_insert]; [reflexivity |].
  destruct (String.leb x y); [reflexivity |].
  rewrite IH. apply perm_swap.
Qed.

Lemma sort_permutation l : Permutation (sort l) l.
Proof.
  induction l as [| x rest IH]; [reflexivity |].
  unfold sort in *. cbn [fold_right].
  rewrite sort_insert_permutation. now apply perm_skip.
Qed.

Lemma sort_insert_HdRel x y l :
  String.leb y x = true ->
  HdRel (fun s t => String.leb s t = true) y l ->
  HdRel (fun s t => String.leb s t = true) y (sort_insert x l).
Proof.
  intros Hyx Hl. destruct l as [| z rest]; cbn [sort_insert].
  - now constructor.
  - destruct (String.leb x z); constructor; [assumption |].
    now inversion Hl.
Qed.

Lemma sort_insert_sorted x l :
  Sorted (fun s t => String.leb s t = true) l ->
  Sorted (fun s t => String.leb s t = true) (sort_insert x l).
Proof.
  induction l as [| y rest IH]; intros Hl; cbn [sort_insert].
  - repeat constructor.
  - destruct (String.leb x y) eqn:Hxy.
    + constructor; [assumption | now constructor].
    + inversion Hl as [| ? ? Hrest Hhd]; subst.
      constructor; [now apply IH |].
      apply sort_insert_HdRel; [| assumption].
      destruct (String.leb_total x y) as [H | H]; [congruence | exact H].
Qed.

Lemma sort_sorted l : Sorted (fun s t => String.leb s t = true) (sort l).
Proof.
  induction l as [| x rest IH]; [constructor |].
  unfold sort in *. cbn [fold_right]. now apply sort_insert_sorted.
Qed.

Section PolicyMovesFacts.

Context {Board Rng : Type}.
Variable O : oracle Board Rng.
Variable MAXSIZE : Z.
Variable size : Board -> Z.

Lemma format_moves_pure board moves :
  forall (w : world Board Rng) strings w',
    format_moves MAXSIZE size board moves w = Ok strings w' ->
    w' = w /\ List.length strings = List.length moves.
Proof.
  induction moves as [| mv rest IH]; intros w strings w' H;
    cbn [format_moves] in H.
  - injection H as <- <-. auto.
  - apply bind_Ok in H. destruct H as (sz & w1 & Hsz & H).
    injection Hsz as _ <-.
    apply bind_Ok in H. destruct H as (mc & w1 & Hmc & H).
    assert (w1 = w) as ->.
    { unfold point_to_coord in Hmc. destruct mv as [| p].
      - now injection Hmc as _ <-.
      - destruct (_ =? 0)%Z; [discriminate |]. now injection Hmc as _ <-. }
    apply bind_Ok in H. destruct H as (ms & w1 & Hms & H).
    assert (w1 = w) as ->.
    { unfold format_point in Hms. destruct mc as [| row col].
      - now injection Hms as _ <-.
      - destruct (_ || _); [discriminate |].
        apply bind_Ok in Hms. destruct Hms as (ch & w2 & Hch & Hms).
        injection Hms as _ <-. unfold str_index in Hch.
        destruct (_ <? 0)%Z; [discriminate |].
        destruct (String.get _ _); [| discriminate].
        now injection Hch as _ <-. }
    apply bind_Ok in H. destruct H as (ss & w1 & Hss & H).
    apply IH in Hss. destruct Hss as (-> & Hlen).
    injection H as <- <-. cbn. auto.
Qed.

(** The response is empty exactly when the board has no legal move, and
    the command leaves the store as it found it. *)
Lemma policy_moves_response_iff (w : world Board Rng) self_board
    response w' :
  self_board < next w ->
  policy_moves O MAXSIZE size self_board w = Ok response w' ->
  (response = ""%string <->
   generate_legal_moves_gomoku O (heap w self_board) = []) /\
  (forall x, x < next w -> heap w' x = heap w x) /\
  STACK w' = STACK w /\ rng w' = rng w.
Proof.
  intros Hb H. unfold policy_moves in H.
  apply bind_Ok in H. destruct H as (r & w1 & Hr & H).
  destruct (check_block_win_reads O self_board None w Hb)
    as (w1' & Hrun & (Hn & Hs & Hh) & Hrng).
  rewrite Hrun in Hr. injection Hr as Hr <-.
  change (classify O (heap w self_board)
            (color_or_default O (heap w self_board) None) = r) in Hr.
  apply bind_Ok in H. destruct H as (strings & w2 & Hfm & H).
  apply format_moves_pure in Hfm. destruct Hfm as (-> & Hlen).
  injection H as Hresp <-.
  split; [| auto].
  destruct (returnstring_shape (sort strings) (fst r)) as (t & Ht & Hlt).
  rewrite Ht in Hresp. rewrite sort_length, Hlen in Hlt.
  pose proof (classify_empty O (heap w self_board)
                (color_or_default O (heap w self_board) None)) as Hempty.
  assert (Hcat : In (fst r)
            ["Win"; "BlockWin"; "OpenFour"; "BlockOpenFour"; "Random"]).
  { rewrite <- Hr. unfold classify, check_block_win_result.
    repeat match goal with
           | |- context [if ?t then _ else _] => destruct t
           end; cbn; auto 10. }
  assert (Hrandom : generate_legal_moves_gomoku O (heap w self_board) = [] ->
                    fst r = "Random"%string).
  { intros Hnil. rewrite <- Hr. unfold classify. rewrite Hnil.
    reflexivity. }
  rewrite Hr in Hempty. clear Hr.
  split.
  - intros Hnil. apply Hempty.
    destruct (String.eqb (fst r ++ t) "Random") eqn:Heq.
    + apply String.eqb_eq in Heq.
      assert (Hl : String.length (fst r ++ t) = 6) by now rewrite Heq.
      rewrite string_app_length in Hl.
      cbn in Hcat.
      destruct Hcat as [Hc | [Hc | [Hc | [Hc | [Hc | []]]]]];
        rewrite <- Hc in Heq, Hl; rewrite string_app_cons in Heq;
        cbn [String.length] in Hl; try discriminate Heq.
      destruct (snd r); [reflexivity | cbn in Hlt; lia].
    + rewrite <- Hresp in Hnil.
      cbn in Hcat.
      destruct Hcat as [Hc | [Hc | [Hc | [Hc | [Hc | []]]]]];
        rewrite <- Hc in Hnil; rewrite string_app_cons in Hnil;
        discriminate Hnil.
  - intros Hnil. rewrite <- Hresp.
    assert (Hsnd : snd r = []) by now apply Hempty.
    rewrite Hsnd in Hlen. destruct strings; [| discriminate Hlen].
    cbn in Ht. rewrite <- Ht, (Hrandom Hnil). reflexivity.
Qed.

(** What one round of the loop of [policy_moves] appends does not depend
    on the world it runs in. *)
Lemma format_moves_each board moves :
  forall (w : world Board Rng) strings w',
    format_moves MAXSIZE size board moves w = Ok strings w' ->
    Forall2
      (fun mv s => forall x : world Board Rng,
         (move_coord <- point_to_coord mv (size (heap w board)) ;;
          format_point MAXSIZE move_coord) x = Ok s x)
      moves strings.
Proof.
  induction moves as [| mv rest IH]; intros w strings w' H;
    cbn [format_moves] in H.
  - injection H as <- _. constructor.
  - apply bind_Ok in H. destruct H as (sz & w1 & Hsz & H).
    injection Hsz as <- <-.
    apply bind_Ok in H. destruct H as (mc & w1 & Hmc & H).
    apply bind_Ok in H. destruct H as (ms & w2 & Hms & H).
    apply bind_Ok in H. destruct H as (ss & w3 & Hss & H).
    injection H as <- <-.
    assert (w1 = w) as ->.
    { unfold point_to_coord in Hmc. destruct mv as [| p].
      - now injection Hmc as _ <-.
      - destruct (_ =? 0)%Z; [discriminate |]. now injection Hmc as _ <-. }
    assert (w2 = w) as ->.
    { unfold format_point in Hms. destruct mc as [| row col].
      - now injection Hms as _ <-.
      - destruct (_ || _); [discriminate |].
        apply bind_Ok in Hms. destruct Hms as (ch & w4 & Hch & Hms).
        injection Hms as _ <-. unfold str_index in Hch.
        destruct (_ <? 0)%Z; [discriminate |].
        destruct (String.get _ _); [| discriminate].
        now injection Hch as _ <-. }
    assert (Hone : forall x : world Board Rng,
               (move_coord <- point_to_coord mv (size (heap w board)) ;;
                format_point MAXSIZE move_coord) x = Ok ms x).
    { intros x. unfold bind.
      assert (Hp : point_to_coord mv (size (heap w board)) x = Ok mc x).
      { unfold point_to_coord in *. destruct mv as [| p].
        - unfold ret in *. congruence.
        - destruct (_ =? 0)%Z; [discriminate |]. unfold ret in *.
          congruence. }
      rewrite Hp.
      unfold format_point in *. destruct mc as [| row col].
      - unfold ret in *. congruence.
      - destruct (_ || _); [discriminate |].
        unfold bind, str_index in *.
        destruct (_ <? 0)%Z; [discriminate |].
        destruct (String.get _ _); [| discriminate].
        unfold ret in *. congruence. }
    constructor; [exact Hone |]. eapply IH, Hss.
Qed.

(** X12. When [policy_moves] responds, the response is determined by the
    board: every move of the list [check_block_win] returns is formatted
    by [point_to_coord] and [format_point]; with no legal move the
    response is empty, otherwise it is the category, Random as well,
    followed by a space and a move string for every move, the move strings
    in sorted order. So the response is empty exactly when the board has
    no legal move. The command changes no board object that existed,
    leaves [STACK] as it was and draws no random number. *)
Theorem policy_moves_response (w : world Board Rng) self_board
    response w' :
  self_board < next w ->
  policy_moves O MAXSIZE size self_board w = Ok response w' ->
  let b := heap w self_board in
  let category := fst (classify O b (current_player O b)) in
  let moves := snd (classify O b (current_player O b)) in
  exists move_strings,
    Forall2
      (fun mv s => forall x : world Board Rng,
         (move_coord <- point_to_coord mv (size b) ;;
          format_point MAXSIZE move_coord) x = Ok s x)
      moves move_strings /\
    Permutation (sort move_strings) move_strings /\
    Sorted (fun s t => String.leb s t = true) (sort move_strings) /\
    response =
      match generate_legal_moves_gomoku O b with
      | [] => ""%string
      | _ :: _ =>
          fold_left (fun acc move_string => acc ++ (" " ++ move_string))%string
            (sort move_strings) category
      end /\
    (response = ""%string <-> generate_legal_moves_gomoku O b = []) /\
    (forall x, x < next w -> heap w' x = heap w x) /\
    STACK w' = STACK w /\ rng w' = rng w.
Proof.
  intros Hb H b category moves.
  destruct (policy_moves_response_iff w self_board response w' Hb H)
    as (Hiff & Hframe).
  unfold policy_moves in H.
  apply bind_Ok in H. destruct H as (r & w1 & Hr & H).
  destruct (check_block_win_reads O self_board None w Hb)
    as (w1' & Hrun & (Hn & Hs & Hh) & Hrng).
  rewrite Hrun in Hr. injection Hr as Hr <-.
  change (classify O b (current_player O b) = r) in Hr.
  apply bind_Ok in H. destruct H as (strings & w2 & Hfm & H).
  pose proof (format_moves_each _ _ _ _ _ Hfm) as Heach.
  rewrite Hh in Heach by assumption. fold b in Heach.
  injection H as Hresp _.
  exists strings. subst category moves. rewrite Hr.
  split; [exact Heach |]. split; [apply sort_permutation |].
  split; [apply sort_sorted |]. split; [| split; assumption].
  fold b in Hiff.
  destruct (generate_legal_moves_gomoku O b) as [| m ms] eqn:Hlegal.
  - now apply Hiff.
  - destruct (String.eqb _ "Random") eqn:Heq; [| now symmetry].
    exfalso. symmetry in Hresp. apply Hiff in Hresp. discriminate Hresp.
Qed.

End PolicyMovesFacts.

End PolicyMovesTheory.

(** ** The further properties on concrete inputs *)

Lemma check_block_win_no_side_effect_witness :
  exists w',
    check_block_win GoBoard.the_oracle 0 None
      (GoBoard.world_of Positions.win_and_block [])
    = Ok (classify GoBoard.the_oracle Positions.win_and_block BLACK) w' /\
    STACK w' = [] /\ rng w' = [].
Proof.
  destruct (check_block_win_no_side_effect GoBoard.the_oracle
              (GoBoard.world_of Positions.win_and_block []) 0 None)
    as (w' & Hrun & _ & Hs & Hr & _).
  - cbn. lia.
  - exists w'. split; [exact Hrun |]. split; assumption.
Defined.

Lemma check_block_win_returns_legal_witness :
  exists moves w',
    check_block_win GoBoard.the_oracle 0 None
      (GoBoard.world_of Positions.win_and_block []) = Ok ("Win", moves) w' /\
    forall mv, In mv moves ->
      In mv (GoBoard.generate_legal_moves_gomoku Positions.win_and_block).
Proof.
  assert (H : exists moves w',
            check_block_win GoBoard.the_oracle 0 None
              (GoBoard.world_of Positions.win_and_block [])
            = Ok ("Win", moves) w').
  { eexists. eexists. vm_compute. reflexivity. }
  destruct H as (moves & w' & H). exists moves, w'. split; [exact H |].
  destruct (check_block_win_returns_legal GoBoard.the_oracle
              (GoBoard.world_of Positions.win_and_block []) 0 None
              "Win" moves w') as (Hin & _).
  - cbn. lia.
  - exact H.
  - exact Hin.
Defined.

Lemma genmove_cmd_leaves_objects_witness :
  exists w',
    genmove_cmd GoBoard.the_oracle 3 policy_rule_based 0 BLACK
      (GoBoard.world_of Positions.two_left [])
    = Ok (selected (Some (Pt 11))) w' /\
    heap w' 0 = Positions.two_left /\ STACK w' = [].
Proof.
  assert (H : exists w',
            genmove_cmd GoBoard.the_oracle 3 policy_rule_based 0 BLACK
              (GoBoard.world_of Positions.two_left [])
            = Ok (selected (Some (Pt 11))) w').
  { eexists. vm_compute. reflexivity. }
  destruct H as (w' & H). exists w'. split; [exact H |].
  destruct (genmove_cmd_leaves_objects GoBoard.the_oracle 3 policy_rule_based
              (GoBoard.world_of Positions.two_left []) 0 BLACK _ w' H)
    as (Hh & Hs & _).
  split; [| exact Hs]. apply (Hh 0). cbn. lia.
Defined.

Lemma genmove_cmd_wins_bounds_witness :
  exists wins w',
    random_candidate GoBoard.the_oracle 3 0 BLACK (Pt 35)
      (GoBoard.world_of Positions.two_left (repeat 1 40)) = Ok wins w' /\
    (0 <= ratio_of wins <= 1)%Q.
Proof.
  assert (H : exists wins w',
            random_candidate GoBoard.the_oracle 3 0 BLACK (Pt 35)
              (GoBoard.world_of Positions.two_left (repeat 1 40))
            = Ok wins w').
  { eexists. eexists. vm_compute. reflexivity. }
  destruct H as (wins & w' & H). exists wins, w'. split; [exact H |].
  apply (genmove_cmd_wins_bounds GoBoard.the_oracle 3 policy_random
           (GoBoard.world_of Positions.two_left (repeat 1 40)) 0 BLACK
           (Pt 35) wins w' H).
Defined.

Lemma rules_candidate_ten_equal_playouts_witness :
  exists wins w' score,
    rules_candidate GoBoard.the_oracle 3 0 BLACK (Pt 35)
      (GoBoard.world_of Positions.two_left []) = Ok wins w' /\
    rules_value GoBoard.the_oracle 3
      (GoBoard.play_move_gomoku Positions.two_left (Pt 35) BLACK)
      BLACK WHITE = Some score /\
    (wins == 10 * score)%Q.
Proof.
  assert (H : exists wins w',
            rules_candidate GoBoard.the_oracle 3 0 BLACK (Pt 35)
              (GoBoard.world_of Positions.two_left []) = Ok wins w').
  { eexists. eexists. vm_compute. reflexivity. }
  destruct H as (wins & w' & H).
  destruct (rules_candidate_ten_equal_playouts GoBoard.the_oracle 3
              (GoBoard.world_of Positions.two_left []) 0 BLACK (Pt 35)
              wins w') as (score & Hv & Hq & _).
  - cbn. lia.
  - exact H.
  - exists wins, w', score. split; [exact H |]. split; [exact Hv | exact Hq].
Defined.

Lemma genmove_no_moves_witness :
  Gomoku3.genmove Gomoku3.history_ops
    (<["check_game_end_gomoku" := Gomoku3.ACallable (fun _ => false)]>
       Gomoku3.patched_instance)
    Gomoku3.patched_globals [Pt 3; Pt 2; Pt 1; Pt 0]
  = Raise ValueError [Pt 3; Pt 2; Pt 1; Pt 0].
Proof.
  apply (Gomoku3More.genmove_no_moves Gomoku3.history_ops _
           Gomoku3.patched_globals [Pt 3; Pt 2; Pt 1; Pt 0] (fun _ => false)).
  - vm_compute. reflexivity.
  - reflexivity.
  - vm_compute. reflexivity.
  - vm_compute. reflexivity.
Defined.

Lemma format_point_move_to_coord_witness :
  exists s,
    Protocol.format_point 25 (Protocol.CPair 3 9) tt = Ok s tt /\
    Protocol.move_to_coord 25
      (fun d => option_map Z.of_int (NilZero.int_of_string d)) s 19 tt
    = Ok (Protocol.CPair 3 9) tt.
Proof.
  apply (ProtocolTheory.format_point_move_to_coord 25
           (fun d => option_map Z.of_int (NilZero.int_of_string d))
           3 9 19 tt); try lia.
  vm_compute. reflexivity.
Defined.

Lemma point_to_coord_decomposes_witness :
  Protocol.point_to_coord (Pt 11) 5 tt = Ok (Protocol.CPair 1 5) tt.
Proof.
  apply (ProtocolTheory.point_to_coord_decomposes 11 5 1 5 tt); lia.
Defined.

Lemma POLICY_always_known_witness :
  exists q, Protocol.policy_of_string "rule_based" = Some q.
Proof.
  apply ProtocolTheory.POLICY_always_known.
  apply (Protocol.reachable_cmd ["rule_based"] "random"
           "policy set to rule_based" "rule_based").
  - apply Protocol.reachable_initial.
  - vm_compute. reflexivity.
Defined.

Lemma policy_moves_response_witness :
  exists response w',
    Protocol.policy_moves GoBoard.the_oracle 25
      (fun b => Z.of_nat (GoBoard.size b)) 0
      (GoBoard.world_of Positions.win_and_block []) = Ok response w' /\
    response = "Win E1" /\
    GoBoard.generate_legal_moves_gomoku Positions.win_and_block <> [].
Proof.
  assert (H : exists w',
            Protocol.policy_moves GoBoard.the_oracle 25
              (fun b => Z.of_nat (GoBoard.size b)) 0
              (GoBoard.world_of Positions.win_and_block [])
            = Ok "Win E1" w').
  { eexists. vm_compute. reflexivity. }
  destruct H as (w' & H). exists "Win E1", w'.
  split; [exact H |]. split; [reflexivity |].
  destruct (PolicyMovesTheory.policy_moves_response GoBoard.the_oracle
              25 (fun b => Z.of_nat (GoBoard.size b))
              (GoBoard.world_of Positions.win_and_block []) 0 "Win E1" w')
    as (strings & _ & _ & _ & _ & Hiff & _).
  - cbn. lia.
  - exact H.
  - intros Hnil. apply Hiff in Hnil. discriminate Hnil.
Defined.
